(** * FinPulse: the ingestion-and-scoring pipeline

    A shallow embedding of [finpulse/scrapers/base_scraper.py] and
    [finpulse/sentiment/analyzer.py], with the properties of the pipeline
    stated and proved (or refuted) over it.

    Conventions of the embedding.
    - Text is ASCII text, a [string] of 8-bit characters; the Python
      predicates on characters are given their values on code points
      below 128 and are false above ([upper] leaves those unchanged).
    - A Python [set] of strings is a [gset string]; a Python [int] is a [Z].
    - A Python [float] is an exact rational ([Q]): rounding is not
      modelled. The arithmetic of [_analyze_textblob] is written once over
      an interface, so that it runs on binary64 numbers too.
    - Calls into third-party code (the HTTP session, the VADER and TextBlob
      scorers, the clock) are inputs of the embedding. *)

From Stdlib Require Import ZArith QArith Qabs Qround Lqa Floats Ascii String.
From stdpp Require Import base decidable list sorting gmap strings.

Local Open Scope string_scope.
Local Open Scope nat_scope.
Local Open Scope list_scope.

(** ** Python strings *)

Module PyStr.

(** Code point of a character. *)
Definition ord (c : ascii) : N := N_of_ascii c.

Definition in_range (lo hi : N) (c : ascii) : bool :=
  ((lo <=? ord c) && (ord c <=? hi))%N.

(** [A-Z] of a [re] pattern. *)
Definition is_AZ (c : ascii) : bool := in_range 65 90 c.

Definition is_az (c : ascii) : bool := in_range 97 122 c.

Definition is_digit (c : ascii) : bool := in_range 48 57 c.

(** [\w]: letters, digits and the underscore. *)
Definition is_word (c : ascii) : bool :=
  is_AZ c || is_az c || is_digit c || (ord c =? 95)%N.

(** [\s] and [str.isspace]: TAB, LF, VT, FF, CR, FS, GS, RS, US, space. *)
Definition is_space (c : ascii) : bool :=
  in_range 9 13 c || in_range 28 32 c.

Definition upper_char (c : ascii) : ascii :=
  if is_az c then ascii_of_N (ord c - 32) else c.

(** [str.upper]. *)
Fixpoint upper (s : string) : string :=
  match s with
  | EmptyString => EmptyString
  | String c s' => String (upper_char c) (upper s')
  end.

(** [len(s)]. *)
Definition len (s : string) : Z := Z.of_nat (String.length s).

(** [s.split()]: the maximal runs of characters that are not whitespace.
    [cur] is the run being read, in reverse. *)
Fixpoint split_go (cur : list ascii) (s : list ascii) : list string :=
  match s with
  | [] => match cur with [] => [] | _ => [string_of_list_ascii (rev cur)] end
  | c :: s' =>
      if is_space c
      then match cur with
           | [] => split_go [] s'
           | _ => string_of_list_ascii (rev cur) :: split_go [] s'
           end
      else split_go (c :: cur) s'
  end.

Definition split (s : string) : list string :=
  split_go [] (list_ascii_of_string s).

(** [sorted] on a list of strings: Python compares strings by code points,
    lexicographically. *)
Definition sorted (l : list string) : list string :=
  merge_sort String.le l.

End PyStr.

(** ** The fragment of [re] that the ticker patterns use *)

Module Re.

(** Patterns. Repetition is of a character class only, and greedy;
    [Rep p 1 None] is [p+]. *)
Inductive regex : Type :=
| Str (l : list ascii)
| Cls (p : ascii -> bool)
| Rep (p : ascii -> bool) (lo : nat) (hi : option nat)
| WordB
| Cat (r1 r2 : regex)
| Alt (r1 r2 : regex)
| Grp (r : regex).

(** One way of matching at a position: the text consumed, the texts of
    the groups closed on the way (in the order of their opening
    parentheses), and the text that is left. *)
Record path : Type := Path {
  consumed : list ascii;
  groups : list (list ascii);
  rest : list ascii
}.

(** Length of the longest prefix of [s] in the class [p], at most [hi]. *)
Fixpoint run (p : ascii -> bool) (hi : option nat) (s : list ascii) : nat :=
  match hi, s with
  | Some O, _ => 0
  | _, [] => 0
  | _, c :: s' => if p c then S (run p (pred <$> hi) s') else 0
  end.

(** [lo .. lo+n] from the largest down: the order in which a greedy
    repetition gives characters back. *)
Fixpoint downto (lo n : nat) : list nat :=
  match n with
  | O => [lo]
  | S n' => (lo + n)%nat :: downto lo n'
  end.

Definition is_word_at (c : option ascii) : bool :=
  match c with Some c => PyStr.is_word c | None => false end.

(** The character before the position reached after consuming [l]. *)
Definition prev_after (prev : option ascii) (l : list ascii) : option ascii :=
  match last l with Some c => Some c | None => prev end.

Fixpoint is_prefix (l s : list ascii) : bool :=
  match l, s with
  | [], _ => true
  | a :: l', b :: s' => Ascii.eqb a b && is_prefix l' s'
  | _ :: _, [] => false
  end.

(** All the ways of matching [r] at a position, in the order a
    backtracking matcher tries them; [prev] is the character before the
    position, [s] the text from the position on. *)
Fixpoint paths (r : regex) (prev : option ascii) (s : list ascii) : list path :=
  match r with
  | Str l =>
      if is_prefix l s then [Path l [] (drop (length l) s)] else []
  | Cls p =>
      match s with
      | c :: s' => if p c then [Path [c] [] s'] else []
      | [] => []
      end
  | Rep p lo hi =>
      let n := run p hi s in
      if (lo <=? n)%nat
      then (fun k => Path (take k s) [] (drop k s)) <$> downto lo (n - lo)
      else []
  | WordB =>
      if xorb (is_word_at prev) (is_word_at (head s)) then [Path [] [] s] else []
  | Cat r1 r2 =>
      p1 ← paths r1 prev s;
      p2 ← paths r2 (prev_after prev (consumed p1)) (rest p1);
      [Path (consumed p1 ++ consumed p2) (groups p1 ++ groups p2) (rest p2)]
  | Alt r1 r2 => paths r1 prev s ++ paths r2 prev s
  | Grp r =>
      (fun p => Path (consumed p) (consumed p :: groups p) (rest p)) <$> paths r prev s
  end.

(** Number of capturing groups. *)
Fixpoint ngroups (r : regex) : nat :=
  match r with
  | Str _ | Cls _ | Rep _ _ _ | WordB => 0
  | Cat r1 r2 | Alt r1 r2 => ngroups r1 + ngroups r2
  | Grp r => S (ngroups r)
  end.

(** The scan of [re.findall]: the leftmost match, then the leftmost match
    after its end, and so on. [skip] counts the characters of the last
    match that are still to be passed. A match that consumes nothing is
    recorded and the scan moves on by one character; none of the ticker
    patterns has such a match. *)
Fixpoint scan (r : regex) (prev : option ascii) (s : list ascii) (skip : nat) : list path :=
  match s with
  | [] =>
      match skip, paths r prev [] with
      | O, p :: _ => [p]
      | _, _ => []
      end
  | c :: s' =>
      match skip with
      | S k => scan r (Some c) s' k
      | O =>
          match paths r prev s with
          | p :: _ => p :: scan r (Some c) s' (length (consumed p) - 1)
          | [] => scan r (Some c) s' 0
          end
      end
  end.

(** What [re.findall] returns: a list of strings for a pattern with at
    most one group, a list of tuples for a pattern with several. *)
Inductive matches : Type :=
| Strs (l : list string)
| Tups (l : list (list string)).

Definition findall (r : regex) (text : string) : matches :=
  let ms := scan r None (list_ascii_of_string text) 0 in
  match ngroups r with
  | 0 => Strs ((fun p => string_of_list_ascii (consumed p)) <$> ms)
  | 1 => Strs ((fun p => string_of_list_ascii (default [] (head (groups p)))) <$> ms)
  | _ => Tups ((fun p => string_of_list_ascii <$> groups p) <$> ms)
  end.

End Re.

(** ** [finpulse/scrapers/base_scraper.py]: ticker detection *)

Module Tickers.
Import Re.

Definition chars (s : string) : list ascii := list_ascii_of_string s.

(** [r'\$([A-Z]{1,5})'] *)
Definition pat_dollar : regex :=
  Cat (Str (chars "$")) (Grp (Rep PyStr.is_AZ 1 (Some 5))).

(** [r'\b([A-Z]{1,5})\s+stock'] *)
Definition pat_stock : regex :=
  Cat WordB
    (Cat (Grp (Rep PyStr.is_AZ 1 (Some 5)))
       (Cat (Rep PyStr.is_space 1 None) (Str (chars "stock")))).

(** [r'\b(NASDAQ:|NYSE:)([A-Z]{1,5})'] *)
Definition pat_exchange : regex :=
  Cat WordB
    (Cat (Grp (Alt (Str (chars "NASDAQ:")) (Str (chars "NYSE:"))))
       (Grp (Rep PyStr.is_AZ 1 (Some 5)))).

Definition patterns : list regex := [pat_dollar; pat_stock; pat_exchange].

Definition false_positives : gset string :=
  list_to_set
    ["THE"; "AND"; "FOR"; "ARE"; "BUT"; "NOT"; "YOU"; "ALL"; "CAN"; "HER";
     "WAS"; "ONE"; "OUR"; "OUT"; "DAY"; "GET"; "HAS"; "HIM"; "HIS"; "HOW";
     "ITS"; "MAY"; "NEW"; "NOW"; "OLD"; "SEE"; "TWO"; "WHO"; "BOY"; "DID";
     "ITS"; "LET"; "PUT"; "SAY"; "SHE"; "TOO"; "USE"].

(** The body of the loop over the patterns: when the matches are tuples
    (and there is one), the last component of each is added; otherwise the
    matches themselves are. *)
Definition add_matches (tickers : gset string) (ms : matches) : gset string :=
  match ms with
  | Tups (m :: ms') => tickers ∪ list_to_set ((fun t => default "" (last t)) <$> (m :: ms'))
  | Tups [] => tickers
  | Strs l => tickers ∪ list_to_set l
  end.

(** The candidates, before the filter. *)
Definition candidates (text : string) : gset string :=
  foldl (fun tickers pat => add_matches tickers (findall pat (PyStr.upper text)))
    ∅ patterns.

Definition _detect_ticker_symbols (text : string) : list string :=
  let tickers := candidates text in
  let tickers :=
    filter (λ t, (t ∉ false_positives) ∧ (PyStr.len t ≤ 5)%Z) (elements tickers) in
  PyStr.sorted tickers.

End Tickers.

(** ** Facts about the matcher *)

Module ReFacts.
Import Re.

Lemma run_le_length p hi s : run p hi s ≤ length s.
Proof.
  revert hi. induction s as [|c s IH]; intros [[|h]|]; simpl; try lia;
    destruct (p c); simpl; try lia.
  - specialize (IH (Some h)). simpl in IH. lia.
  - specialize (IH None). simpl in IH. lia.
Qed.

Lemma run_le_hi p h s : run p (Some h) s ≤ h.
Proof.
  revert h. induction s as [|c s IH]; intros [|h]; simpl; try lia.
  destruct (p c); [|lia]. specialize (IH h). simpl. lia.
Qed.

Lemma run_take p hi s k :
  k ≤ run p hi s → Forall (λ c, p c = true) (take k s).
Proof.
  revert hi k. induction s as [|c s IH]; intros hi k Hk.
  - rewrite take_nil. constructor.
  - destruct k as [|k]; [constructor|].
    assert (p c = true ∧ ∃ hi', k ≤ run p hi' s) as [Hc [hi' Hk']].
    { destruct hi as [[|h]|]; simpl in Hk; try lia;
        destruct (p c); try lia; (split; [done|]); eexists; apply Nat.succ_le_mono, Hk. }
    simpl. constructor; [done|]. by eapply IH.
Qed.

Lemma elem_of_downto lo n k : k ∈ downto lo n ↔ lo ≤ k ≤ lo + n.
Proof.
  induction n as [|n IH]; simpl.
  - rewrite list_elem_of_singleton. lia.
  - rewrite elem_of_cons, IH. lia.
Qed.

(** A greedy repetition of a class consumes between [lo] and [hi]
    characters of the class and closes no group. *)
Lemma paths_Rep p lo hi prev s q :
  q ∈ paths (Rep p lo hi) prev s →
  groups q = [] ∧ Forall (λ c, p c = true) (consumed q) ∧
  lo ≤ length (consumed q) ∧ (∀ h, hi = Some h → length (consumed q) ≤ h) ∧
  rest q = drop (length (consumed q)) s.
Proof.
  simpl. destruct (lo <=? run p hi s)%nat eqn:Hlo; [|by intros ?%elem_of_nil].
  apply Nat.leb_le in Hlo.
  intros (k & -> & Hk%elem_of_downto)%list_elem_of_fmap. simpl.
  assert (k ≤ run p hi s) as Hrun by lia.
  pose proof (run_le_length p hi s).
  rewrite length_take, Nat.min_l by lia.
  repeat split; [by eapply run_take|lia|].
  intros h ->. pose proof (run_le_hi p h s). lia.
Qed.

Lemma paths_Str l prev s q :
  q ∈ paths (Str l) prev s → consumed q = l ∧ groups q = [] ∧ is_prefix l s = true.
Proof.
  simpl. destruct (is_prefix l s); [|by intros ?%elem_of_nil].
  by intros ->%list_elem_of_singleton.
Qed.

Lemma paths_WordB prev s q :
  q ∈ paths WordB prev s → consumed q = [] ∧ groups q = [] ∧ rest q = s.
Proof.
  simpl. destruct (xorb _ _); [|by intros ?%elem_of_nil].
  by intros ->%list_elem_of_singleton.
Qed.

Lemma paths_Cat r1 r2 prev s q :
  q ∈ paths (Cat r1 r2) prev s →
  ∃ q1 q2, q1 ∈ paths r1 prev s ∧
    q2 ∈ paths r2 (prev_after prev (consumed q1)) (rest q1) ∧
    consumed q = consumed q1 ++ consumed q2 ∧
    groups q = groups q1 ++ groups q2 ∧ rest q = rest q2.
Proof.
  simpl. intros (q1 & (q2 & ->%list_elem_of_singleton & H2)%list_elem_of_bind & H1)%list_elem_of_bind.
  by exists q1, q2.
Qed.

Lemma paths_Alt r1 r2 prev s q :
  q ∈ paths (Alt r1 r2) prev s → q ∈ paths r1 prev s ∨ q ∈ paths r2 prev s.
Proof. simpl. by rewrite elem_of_app. Qed.

Lemma paths_Grp r prev s q :
  q ∈ paths (Grp r) prev s →
  ∃ q', q' ∈ paths r prev s ∧ consumed q = consumed q' ∧
    groups q = consumed q' :: groups q' ∧ rest q = rest q'.
Proof. simpl. intros (q' & -> & ?)%list_elem_of_fmap. by exists q'. Qed.

(** Every match that the scan records is the first way of matching the
    pattern at some position of the text. *)
Lemma scan_paths r prev s skip q :
  q ∈ scan r prev s skip → ∃ prev' s', head (paths r prev' s') = Some q.
Proof.
  revert prev skip. induction s as [|c s IH]; intros prev skip; simpl.
  - destruct skip; [|by intros ?%elem_of_nil].
    destruct (paths r prev []) as [|p ps] eqn:Hp; [by intros ?%elem_of_nil|].
    intros ->%list_elem_of_singleton. exists prev, []. by rewrite Hp.
  - destruct skip as [|k]; [|by apply IH].
    destruct (paths r prev (c :: s)) as [|p ps] eqn:Hp; [by apply IH|].
    intros [->|?]%elem_of_cons; [|by eapply IH].
    exists prev, (c :: s). by rewrite Hp.
Qed.

End ReFacts.

(** ** Ticker detection: what the patterns capture *)

Module TickerFacts.
Import Re ReFacts Tickers.

(** An uppercase alphabetic string of 1 to 5 characters. *)
Definition is_ticker (t : string) : Prop :=
  Forall (λ c, PyStr.is_AZ c = true) (chars t) ∧ (1 ≤ PyStr.len t ≤ 5)%Z.

Definition ticker_chars (w : list ascii) : Prop :=
  Forall (λ c, PyStr.is_AZ c = true) w ∧ 1 ≤ length w ≤ 5.

(** The matches of a pattern are well formed when each contributes a
    ticker to the candidates. *)
Definition good_matches (ms : matches) : Prop :=
  match ms with
  | Strs l => Forall is_ticker l
  | Tups l => Forall (λ t, is_ticker (default "" (last t))) l
  end.

Ltac inv_paths :=
  repeat match goal with
  | H : _ ∈ paths (Cat _ _) _ _ |- _ => apply paths_Cat in H as (?&?&?&?&?&?&?)
  | H : _ ∈ paths (Grp _) _ _ |- _ => apply paths_Grp in H as (?&?&?&?&?)
  | H : _ ∈ paths (Alt _ _) _ _ |- _ => apply paths_Alt in H as [?|?]
  | H : _ ∈ paths (Str _) _ _ |- _ => apply paths_Str in H as (?&?&?)
  | H : _ ∈ paths WordB _ _ |- _ => apply paths_WordB in H as (?&?&?)
  | H : _ ∈ paths (Rep _ _ _) _ _ |- _ => apply paths_Rep in H as (?&?&?&?&?)
  end.

Lemma length_chars t : length (chars t) = String.length t.
Proof. induction t; simpl; congruence. Qed.

Lemma is_ticker_of_chars w :
  ticker_chars w → is_ticker (string_of_list_ascii w).
Proof.
  intros [Hw Hlen]. unfold is_ticker, chars, PyStr.len.
  rewrite <- length_chars. unfold chars.
  rewrite list_ascii_of_string_of_list_ascii. split; [done|lia].
Qed.

Lemma paths_pat_dollar prev s q :
  q ∈ paths pat_dollar prev s → ∃ w, groups q = [w] ∧ ticker_chars w.
Proof.
  unfold pat_dollar. intros Hq. inv_paths.
  match goal with H : groups q = _ |- _ => rewrite H end.
  repeat match goal with H : groups _ = _ |- _ => rewrite H; clear H end.
  eexists; split; [done|]. split; [done|]. split; [done|]. eauto.
Qed.

Lemma paths_pat_stock prev s q :
  q ∈ paths pat_stock prev s → ∃ w, groups q = [w] ∧ ticker_chars w.
Proof.
  unfold pat_stock. intros Hq. inv_paths.
  match goal with H : groups q = _ |- _ => rewrite H end.
  repeat match goal with H : groups _ = _ |- _ => rewrite H; clear H end.
  eexists; split; [done|]. split; [done|]. split; [done|]. eauto.
Qed.

Lemma paths_pat_exchange prev s q :
  q ∈ paths pat_exchange prev s → ∃ e w, groups q = [e; w] ∧ ticker_chars w.
Proof.
  unfold pat_exchange. intros Hq. inv_paths;
    match goal with H : groups q = _ |- _ => rewrite H end;
    repeat match goal with H : groups _ = _ |- _ => rewrite H; clear H end;
    (do 2 eexists; split; [done|]; split; [done|]; split; [done|]; eauto).
Qed.

Lemma scan_elem_paths r prev s skip q :
  q ∈ scan r prev s skip → ∃ prev' s', q ∈ paths r prev' s'.
Proof.
  intros (prev' & s' & [l Hl]%head_Some)%scan_paths.
  exists prev', s'. rewrite Hl. left.
Qed.

Lemma findall_pat_dollar text : good_matches (findall pat_dollar text).
Proof.
  unfold findall. simpl ngroups. cbv iota. simpl.
  apply Forall_fmap, Forall_forall. intros q Hq. simpl.
  apply scan_elem_paths in Hq as (prev & s & (w & -> & Hw)%paths_pat_dollar).
  by apply is_ticker_of_chars.
Qed.

Lemma findall_pat_stock text : good_matches (findall pat_stock text).
Proof.
  unfold findall. simpl ngroups. cbv iota. simpl.
  apply Forall_fmap, Forall_forall. intros q Hq. simpl.
  apply scan_elem_paths in Hq as (prev & s & (w & -> & Hw)%paths_pat_stock).
  by apply is_ticker_of_chars.
Qed.

Lemma findall_pat_exchange text : good_matches (findall pat_exchange text).
Proof.
  unfold findall. simpl ngroups. cbv iota. simpl.
  apply Forall_fmap, Forall_forall. intros q Hq. simpl.
  apply scan_elem_paths in Hq as (prev & s & (e & w & -> & Hw)%paths_pat_exchange).
  simpl. by apply is_ticker_of_chars.
Qed.

Lemma add_matches_tickers (X : gset string) ms :
  (∀ t, t ∈ X → is_ticker t) → good_matches ms →
  ∀ t, t ∈ add_matches X ms → is_ticker t.
Proof.
  intros HX Hms t. destruct ms as [l|[|m l]]; simpl in *; [|by auto|].
  - rewrite elem_of_union, elem_of_list_to_set. intros [?|Ht]; [by auto|].
    by eapply Forall_forall in Hms.
  - rewrite elem_of_union. intros [?|Ht]; [by auto|].
    change (t ∈ (list_to_set ((λ t, default "" (last t)) <$> (m :: l)) : gset string)) in Ht.
    apply elem_of_list_to_set, list_elem_of_fmap in Ht as (u & -> & Hu).
    by eapply Forall_forall in Hms.
Qed.

(** Every candidate is an uppercase alphabetic string of 1 to 5
    characters. *)
Lemma candidates_tickers text t : t ∈ candidates text → is_ticker t.
Proof.
  unfold candidates, patterns. cbn [foldl]. revert t.
  repeat (apply add_matches_tickers;
          [|first [apply findall_pat_dollar|apply findall_pat_stock|apply findall_pat_exchange]]).
  intros t Ht. by apply not_elem_of_empty in Ht.
Qed.

(** C1. For every input text the list that [_detect_ticker_symbols]
    returns has no duplicates, each of its elements is an uppercase
    alphabetic string of 1 to 5 characters that is not in the stop-list,
    and the list is sorted in the lexicographic order of strings. *)
Theorem detect_ticker_symbols_wf (text : string) :
  let out := _detect_ticker_symbols text in
  NoDup out ∧
  Forall (λ t, is_ticker t ∧ t ∉ false_positives) out ∧
  StronglySorted String.le out.
Proof.
  unfold _detect_ticker_symbols, PyStr.sorted. cbv zeta.
  set (kept := filter _ _).
  assert (NoDup kept) as Hnd by apply NoDup_filter, NoDup_elements.
  split; [by rewrite merge_sort_Permutation|].
  split; [|by apply StronglySorted_merge_sort; apply _].
  rewrite merge_sort_Permutation. apply Forall_forall. intros t.
  unfold kept. rewrite list_elem_of_filter, elem_of_elements.
  intros [[Hstop _] Hc]. split; [|done]. by eapply candidates_tickers.
Qed.

(** C2. On the text of the end-to-end scenario the detector returns
    exactly the sorted list of [AAPL] and [MSFT]. *)
Theorem detect_ticker_symbols_scenario :
  _detect_ticker_symbols
    "Apple ($AAPL) beats on strong iPhone sales, NASDAQ:MSFT also rallies"
  = ["AAPL"; "MSFT"].
Proof. vm_compute. reflexivity. Qed.

(** *** The pattern for "AAPL stock" *)

Lemma upper_char_not_lower c : PyStr.is_az (PyStr.upper_char c) = false.
Proof. destruct c as [[] [] [] [] [] [] [] []]; reflexivity. Qed.

(** Upper-cased text holds no lowercase letter. *)
Lemma upper_no_lower text :
  Forall (λ c, PyStr.is_az c = false) (chars (PyStr.upper text)).
Proof.
  induction text as [|c text IH]; simpl; constructor; auto using upper_char_not_lower.
Qed.

Lemma is_prefix_stock s :
  Forall (λ c, PyStr.is_az c = false) s → is_prefix (chars "stock") s = false.
Proof.
  intros Hs. destruct Hs as [|c s Hc _]; [done|].
  change (Ascii.eqb "s" c && is_prefix (chars "tock") s = false).
  destruct (Ascii.eqb_spec "s" c) as [<-|]; [discriminate Hc|done].
Qed.

(** [pat_stock] ends in the lowercase literal [stock]: it has no match in
    a text without lowercase letters. *)
Lemma paths_pat_stock_nil prev s :
  Forall (λ c, PyStr.is_az c = false) s → paths pat_stock prev s = [].
Proof.
  intros Hs. apply elem_of_nil_inv. intros q Hq. unfold pat_stock in Hq.
  inv_paths.
  match goal with H : is_prefix _ ?r = true |- _ =>
    assert (Forall (λ c, PyStr.is_az c = false) r) as Hr
  end.
  { repeat match goal with H : rest _ = _ |- _ => rewrite H; clear H end.
    by do 2 apply Forall_drop. }
  apply is_prefix_stock in Hr. congruence.
Qed.

Lemma scan_nil (P : ascii → Prop) r prev s skip :
  (∀ prev' s', Forall P s' → paths r prev' s' = []) →
  Forall P s → scan r prev s skip = [].
Proof.
  intros Hr Hs. revert prev skip.
  induction Hs as [|c s Hc Hs IH]; intros prev skip; simpl.
  - rewrite Hr by constructor. by destruct skip.
  - destruct skip; [|done]. rewrite Hr by by constructor. done.
Qed.

(** On upper-cased text the second pattern contributes nothing. *)
Lemma findall_pat_stock_upper text :
  findall pat_stock (PyStr.upper text) = Strs [].
Proof.
  unfold findall. fold (chars (PyStr.upper text)).
  rewrite (scan_nil (λ c, PyStr.is_az c = false)); [done| |apply upper_no_lower].
  intros. by apply paths_pat_stock_nil.
Qed.

(** On the text as written, before [upper], the same pattern does find
    the token. *)
Example findall_pat_stock_as_written :
  findall pat_stock "AAPL stock" = Strs ["AAPL"].
Proof. by vm_compute. Qed.

(** C3 (the code does not do this). A bare token followed by the word
    "stock" is not detected: on ["AAPL stock"] the detector returns the
    empty list, because the lowercase literal of the second pattern is
    searched for in the upper-cased text. *)
Theorem detect_ticker_symbols_stock_suffix :
  _detect_ticker_symbols "AAPL stock" = [] ∧
  (∀ text, findall pat_stock (PyStr.upper text) = Strs []).
Proof. split; [by vm_compute|apply findall_pat_stock_upper]. Qed.

End TickerFacts.

(** ** [finpulse/scrapers/base_scraper.py]: requests and statistics *)

Module Scraper.

(** A point in time, as [datetime.utcnow()] gives it. *)
Definition datetime : Type := Z.

(** [self.stats]: a dictionary with these six keys. *)
Record Stats : Type := {
  requests_made : Z;
  successful_requests : Z;
  failed_requests : Z;
  items_scraped : Z;
  start_time : option datetime;
  end_time : option datetime
}.

Record Response : Type := { status_code : Z; body : string }.

(** The exceptions of [requests.exceptions.RequestException] that the
    session raises in this model. *)
Inductive RequestException : Type :=
| RetryError
| ConnectionError
| ReadTimeout.

(** What [self.session.request(...)] does: it returns a response or
    raises a [RequestException]. *)
Inductive outcome : Type :=
| Returned (r : Response)
| Raised (e : RequestException).

(** *** The session of [_create_session]

    The session mounts an adapter with
    [Retry(total=max_retries, backoff_factor=1, status_forcelist=...)].
    What follows is the behaviour of that adapter for one call of
    [session.request]: each attempt on the wire is answered by the server
    or fails; an answer whose status is in the force list, a failed
    connection, and (for an idempotent method) a failed read are tried
    again while retries are left; when none is left the call raises.
    The pauses of the backoff, redirects and the [Retry-After] header are
    left out. *)

(** What happens to one attempt on the wire. *)
Inductive attempt : Type :=
| Answered (r : Response)
| ConnectFailed
| ReadFailed.

(** The server: what happens to the [k]-th attempt sent to it. *)
Definition server : Type := nat → attempt.

Definition status_forcelist : list Z := [429; 500; 502; 503; 504]%Z.

(** [Retry.DEFAULT_ALLOWED_METHODS]. *)
Definition allowed_methods : list string :=
  ["HEAD"; "GET"; "PUT"; "DELETE"; "OPTIONS"; "TRACE"].

Definition is_method_retryable (method : string) : bool :=
  bool_decide (PyStr.upper method ∈ allowed_methods).

Definition is_retry (method : string) (status : Z) : bool :=
  is_method_retryable method && bool_decide (status ∈ status_forcelist).

(** One call of [session.request]: attempts are sent from the [k]-th on,
    with [total] retries left. The result is the outcome and the number of
    the next attempt. *)
Fixpoint send (srv : server) (method : string) (total : nat) (k : nat) : outcome * nat :=
  match srv k with
  | Answered r =>
      if is_retry method (status_code r)
      then match total with
           | O => (Raised RetryError, S k)
           | S total' => send srv method total' (S k)
           end
      else (Returned r, S k)
  | ConnectFailed =>
      match total with
      | O => (Raised ConnectionError, S k)
      | S total' => send srv method total' (S k)
      end
  | ReadFailed =>
      if is_method_retryable method
      then match total with
           | O => (Raised ReadTimeout, S k)
           | S total' => send srv method total' (S k)
           end
      else (Raised ReadTimeout, S k)
  end.

(** *** The scraper *)

Record scraper : Type := {
  delay_seconds : Q;
  max_retries : nat;
  timeout : Z;
  user_agent : string;
  stats : Stats
}.

(** The world outside the scraper: how many attempts have been sent to
    the server, and the pauses taken by [time.sleep], latest first. *)
Record world : Type := {
  sent : nat;
  sleeps : list Q
}.

Definition zero_stats : Stats :=
  {| requests_made := 0; successful_requests := 0; failed_requests := 0;
     items_scraped := 0; start_time := None; end_time := None |}.

Definition default_user_agent : string :=
  "FinPulse/1.0.0 (+https://github.com/aadheeshn26/finpulse)".

(** [BaseScraper.__init__]; [user_agent or default]. *)
Definition __init__ (delay_seconds : Q) (max_retries : nat) (timeout : Z)
    (user_agent : option string) : scraper :=
  {| delay_seconds := delay_seconds;
     max_retries := max_retries;
     timeout := timeout;
     user_agent :=
       match user_agent with
       | Some ua => if decide (ua = "") then default_user_agent else ua
       | None => default_user_agent
       end;
     stats := zero_stats |}.

(** The constructor with its default arguments. *)
Definition new_scraper : scraper := __init__ 1 3 30 None.

Definition with_stats (self : scraper) (st : Stats) : scraper :=
  {| delay_seconds := delay_seconds self; max_retries := max_retries self;
     timeout := timeout self; user_agent := user_agent self; stats := st |}.

(** [self.stats['requests_made'] += 1] and its two siblings. *)
Definition incr_requests_made (st : Stats) : Stats :=
  {| requests_made := requests_made st + 1;
     successful_requests := successful_requests st;
     failed_requests := failed_requests st;
     items_scraped := items_scraped st;
     start_time := start_time st; end_time := end_time st |}.

Definition incr_successful_requests (st : Stats) : Stats :=
  {| requests_made := requests_made st;
     successful_requests := successful_requests st + 1;
     failed_requests := failed_requests st;
     items_scraped := items_scraped st;
     start_time := start_time st; end_time := end_time st |}.

Definition incr_failed_requests (st : Stats) : Stats :=
  {| requests_made := requests_made st;
     successful_requests := successful_requests st;
     failed_requests := failed_requests st + 1;
     items_scraped := items_scraped st;
     start_time := start_time st; end_time := end_time st |}.

Definition sleep (d : Q) (w : world) : world :=
  {| sent := sent w; sleeps := d :: sleeps w |}.

(** [self.session.request(method=method, url=url, timeout=self.timeout)]
    against the server [srv]. *)
Definition session_request (srv : server) (self : scraper) (w : world)
    (method url : string) : outcome * world :=
  let '(out, k) := send srv method (max_retries self) (sent w) in
  (out, {| sent := k; sleeps := sleeps w |}).

(** [_make_request]: the response or [None], the scraper with its
    statistics updated, and the world after the call. Logging is left
    out. This is the call when [time.sleep] returns and the session
    returns a response or raises a [RequestException]; the endings by
    another exception are in [Calls._make_request]. *)
Definition _make_request (srv : server) (self : scraper) (w : world)
    (url method : string) : option Response * scraper * world :=
  let st := incr_requests_made (stats self) in
  let w := if (1 <? requests_made st)%Z then sleep (delay_seconds self) w else w in
  match session_request srv (with_stats self st) w method url with
  | (Returned response, w) =>
      if (status_code response =? 200)%Z
      then (Some response, with_stats self (incr_successful_requests st), w)
      else (None, with_stats self (incr_failed_requests st), w)
  | (Raised e, w) =>
      (None, with_stats self (incr_failed_requests st), w)
  end.

(** [start_scraping] at the time [now]. *)
Definition start_scraping (self : scraper) (now : datetime) : scraper :=
  let st := stats self in
  with_stats self
    {| requests_made := requests_made st;
       successful_requests := successful_requests st;
       failed_requests := failed_requests st;
       items_scraped := items_scraped st;
       start_time := Some now; end_time := end_time st |}.

(** [end_scraping] at the time [now]. *)
Definition end_scraping (self : scraper) (now : datetime) : scraper :=
  let st := stats self in
  with_stats self
    {| requests_made := requests_made st;
       successful_requests := successful_requests st;
       failed_requests := failed_requests st;
       items_scraped := items_scraped st;
       start_time := start_time st; end_time := Some now |}.

(** [get_statistics]: a copy of the dictionary. *)
Definition get_statistics (self : scraper) : Stats := stats self.

(** A server that gives the answers of a list in turn, and no
    connection after them. *)
Definition script (answers : list Response) : server :=
  λ k, match answers !! k with Some r => Answered r | None => ConnectFailed end.

(** A server that answers every attempt with the same response. *)
Definition always (r : Response) : server := λ _, Answered r.

Definition fresh_world : world := {| sent := 0; sleeps := [] |}.

End Scraper.

(** ** Requests and statistics: properties *)

Module ScraperFacts.
Import Scraper.

Local Open Scope Z_scope.


(** What one call of [_make_request] does to the counters: the response
    is there exactly when the call is counted as a success. *)
Definition counted_once (st : Stats) (res : option Response) (st' : Stats) : Prop :=
  requests_made st' = requests_made st + 1 ∧
  items_scraped st' = items_scraped st ∧
  ((is_Some res ∧ successful_requests st' = successful_requests st + 1 ∧
    failed_requests st' = failed_requests st) ∨
   (res = None ∧ successful_requests st' = successful_requests st ∧
    failed_requests st' = failed_requests st + 1)).

Lemma make_request_counted_once srv self w url method :
  let '(res, self', _) := _make_request srv self w url method in
  counted_once (stats self) res (stats self').
Proof.
  unfold _make_request, session_request, counted_once.
  destruct (send _ _ _ _) as [[r|e] k]; [destruct (status_code r =? 200)|];
    simpl; eauto 10.
Qed.

(** *** The two fetch scenarios *)

Definition unavailable (b : string) : Response := {| status_code := 503; body := b |}.

(** Against a server that always answers 503 the session gives up after
    the first attempt and all its retries (or hands the answer back at
    once, for a method that is not retried). *)
Lemma send_always_503 b method total k :
  send (always (unavailable b)) method total k =
  if is_method_retryable method
  then (Raised RetryError, (k + S total)%nat)
  else (Returned (unavailable b), S k).
Proof.
  destruct (is_method_retryable method) eqn:Hm.
  - revert k. induction total as [|total IH]; intros k.
    + cbn [send always]. unfold is_retry. rewrite Hm. simpl.
      f_equal. lia.
    + cbn [send always]. unfold is_retry. rewrite Hm. simpl.
      rewrite IH. f_equal. lia.
  - destruct total; cbn [send always]; unfold is_retry; by rewrite Hm.
Qed.

(** C7. When every answer is 503, [_make_request] returns [None] and
    does not raise, and [failed_requests] grows by exactly 1, whatever the
    number of retries made inside the session (for any [max_retries], 3
    among them). *)
Theorem make_request_all_503 (self : scraper) (w : world) (url method b : string) :
  let '(res, self', w') :=
    _make_request (always (unavailable b)) self w url method in
  res = None ∧
  failed_requests (stats self') = failed_requests (stats self) + 1 ∧
  successful_requests (stats self') = successful_requests (stats self) ∧
  requests_made (stats self') = requests_made (stats self) + 1 ∧
  sent w' = (sent w + if is_method_retryable method then S (max_retries self) else 1)%nat.
Proof.
  unfold _make_request, session_request. simpl max_retries.
  destruct (1 <? _); rewrite send_always_503;
    destruct (is_method_retryable method); simpl; repeat split; lia.
Qed.

(** With the default [max_retries = 3] and GET, four attempts reach the
    server and one failed request is counted. *)
Example make_request_all_503_default :
  let '(res, self', w') :=
    _make_request (always (unavailable "")) new_scraper fresh_world "http://x" "GET" in
  res = None ∧ failed_requests (stats self') = 1 ∧ sent w' = 4%nat.
Proof. by vm_compute. Qed.

(** An answer 503 to a method that is retried costs one retry. *)
Lemma send_503_retry srv method total k b :
  is_method_retryable method = true →
  srv k = Answered (unavailable b) →
  send srv method (S total) k = send srv method total (S k).
Proof.
  intros Hm Hk. cbn [send]. rewrite Hk. unfold is_retry. by rewrite Hm.
Qed.

Lemma send_200 srv method total k r :
  srv k = Answered r → status_code r = 200 →
  send srv method total k = (Returned r, S k).
Proof.
  intros Hk Hr. destruct total; cbn [send]; rewrite Hk; unfold is_retry;
    rewrite Hr; by rewrite andb_false_r.
Qed.

Lemma send_retry_then_ok srv method total k b1 b2 r :
  is_method_retryable method = true → (2 ≤ total)%nat →
  srv k = Answered (unavailable b1) →
  srv (S k) = Answered (unavailable b2) →
  srv (S (S k)) = Answered r → status_code r = 200 →
  send srv method total k = (Returned r, (k + 3)%nat).
Proof.
  intros Hm Htot H1 H2 H3 Hr.
  destruct total as [|[|total]]; [lia..|].
  rewrite (send_503_retry _ _ _ _ b1), (send_503_retry _ _ _ _ b2) by done.
  rewrite (send_200 _ _ _ _ r) by done. f_equal. lia.
Qed.

(** C8, as the code has it. When the answers are 503, 503 and 200 and
    the method is one that is retried (GET is), [_make_request] with
    [max_retries] at least 2 returns the third response,
    [successful_requests] grows by 1, three attempts reach the server,
    and [requests_made] grows by 1: it counts calls, not attempts. *)
Theorem make_request_retry_then_ok (srv : server) (self : scraper) (w : world)
    (url method b1 b2 : string) (r : Response) :
  is_method_retryable method = true → (2 ≤ max_retries self)%nat →
  srv (sent w) = Answered (unavailable b1) →
  srv (S (sent w)) = Answered (unavailable b2) →
  srv (S (S (sent w))) = Answered r → status_code r = 200 →
  let '(res, self', w') := _make_request srv self w url method in
  res = Some r ∧
  successful_requests (stats self') = successful_requests (stats self) + 1 ∧
  failed_requests (stats self') = failed_requests (stats self) ∧
  requests_made (stats self') = requests_made (stats self) + 1 ∧
  sent w' = (sent w + 3)%nat.
Proof.
  intros Hm Htot H1 H2 H3 Hr. unfold _make_request, session_request.
  simpl max_retries.
  destruct (1 <? _); simpl sent;
    rewrite (send_retry_then_ok srv method _ _ b1 b2 r) by done;
    rewrite Hr; simpl; repeat split; lia.
Qed.

Definition ok (b : string) : Response := {| status_code := 200; body := b |}.

(** The scenario of C8 on a new scraper with the default [max_retries = 3]. *)
Lemma make_request_retry_then_ok_witness :
  let srv := script [unavailable ""; unavailable ""; ok "page"] in
  let '(res, self', w') := _make_request srv new_scraper fresh_world "http://x" "GET" in
  res = Some (ok "page") ∧
  successful_requests (stats self') = successful_requests (stats new_scraper) + 1 ∧
  failed_requests (stats self') = failed_requests (stats new_scraper) ∧
  requests_made (stats self') = requests_made (stats new_scraper) + 1 ∧
  sent w' = (sent fresh_world + 3)%nat.
Proof.
  apply (make_request_retry_then_ok
           (script [unavailable ""; unavailable ""; ok "page"])
           new_scraper fresh_world "http://x" "GET" "" "" (ok "page"));
    first [reflexivity | simpl; lia].
Defined.

(** C8, as the claim has it, fails: after the answers 503, 503, 200 the
    statistics record one request, not three. *)
Lemma make_request_retry_records_one :
  let '(res, self', w') :=
    _make_request (script [unavailable ""; unavailable ""; ok "page"])
      new_scraper fresh_world "http://x" "GET" in
  res = Some (ok "page") ∧ sent w' = 3%nat ∧
  requests_made (stats self') = 1 ∧ requests_made (stats self') ≠ 3.
Proof. by vm_compute. Qed.

(** *** The start of a run *)

(** C9, as the code has it. The counters are zero in a new scraper;
    [start_scraping] sets [start_time] and leaves every counter as it
    is. *)
Theorem start_scraping_keeps_counters (self : scraper) (now : datetime) :
  let st := stats self in
  let st' := stats (start_scraping self now) in
  requests_made st' = requests_made st ∧
  successful_requests st' = successful_requests st ∧
  failed_requests st' = failed_requests st ∧
  items_scraped st' = items_scraped st ∧
  start_time st' = Some now ∧ end_time st' = end_time st ∧
  (∀ delay retries tmo ua, stats (__init__ delay retries tmo ua) = zero_stats).
Proof. by simpl. Qed.

(** C9, as the claim has it, fails: a request counted before the run
    starts is still counted after [start_scraping]. *)
Lemma start_scraping_no_reset :
  let '(_, self1, _) :=
    _make_request (always (ok "page")) new_scraper fresh_world "http://x" "GET" in
  let st' := stats (start_scraping self1 1730000000) in
  requests_made st' = 1 ∧ successful_requests st' = 1 ∧ requests_made st' ≠ 0.
Proof. by vm_compute. Qed.

End ScraperFacts.

(** ** [finpulse/sentiment/analyzer.py] *)

Module Sentiment.

(** The arithmetic of Python's [float] that the analyzer uses. The
    embedding is over the exact rationals; the same code runs on binary64
    numbers through the second instance. *)
Class Num (F : Type) : Type := {
  zero : F;
  one : F;
  tenth : F;        (* 0.1 *)
  twentieth : F;    (* 0.05 *)
  add : F → F → F;
  sub : F → F → F;
  div : F → F → F;
  opp : F → F;
  abs : F → F;
  ltb : F → F → bool;
  leb : F → F → bool
}.

#[export] Instance Q_Num : Num Q := {|
  zero := 0%Q;
  one := 1%Q;
  tenth := (1 # 10)%Q;
  twentieth := (1 # 20)%Q;
  add := Qplus;
  sub := Qminus;
  div := Qdiv;
  opp := Qopp;
  abs := Qabs;
  ltb := λ x y, negb (Qle_bool y x);
  leb := Qle_bool
|}.

#[export, warnings="-inexact-float"]
Instance float_Num : Num float := {|
  zero := 0%float;
  one := 1%float;
  tenth := 0.1%float;
  twentieth := 0.05%float;
  add := PrimFloat.add;
  sub := PrimFloat.sub;
  div := PrimFloat.div;
  opp := PrimFloat.opp;
  abs := PrimFloat.abs;
  ltb := PrimFloat.ltb;
  leb := PrimFloat.leb
|}.

(** [max(a, b, c)]: the first of the largest. *)
Definition max3 `{Num F} (a b c : F) : F :=
  let m := if ltb a b then b else a in
  if ltb m c then c else m.

(** What [SentimentIntensityAnalyzer.polarity_scores] returns. *)
Record VaderScores (F : Type) : Type := {
  neg : F;
  neu : F;
  pos : F;
  compound : F
}.
Arguments neg {F}. Arguments neu {F}. Arguments pos {F}. Arguments compound {F}.

(** The dictionary that a model returns; ["subjectivity"] is a key of the
    TextBlob result only. *)
Record Scores (F : Type) : Type := {
  compound_score : F;
  positive_score : F;
  negative_score : F;
  neutral_score : F;
  sentiment_label : string;
  confidence : F;
  subjectivity : option F
}.
Arguments compound_score {F}. Arguments positive_score {F}.
Arguments negative_score {F}. Arguments neutral_score {F}.
Arguments sentiment_label {F}. Arguments confidence {F}.
Arguments subjectivity {F}.

Section models.
Context `{Num F}.

(** The VADER scorer and TextBlob's [sentiment] (polarity, subjectivity)
    are third-party code: they are taken as functions of the text. *)
Variable polarity_scores : string → VaderScores F.
Variable textblob_sentiment : string → F * F.

Definition _analyze_vader (text : string) : Scores F :=
  let scores := polarity_scores text in
  let compound := compound scores in
  let label :=
    if leb twentieth compound then "positive"
    else if leb compound (opp twentieth) then "negative"
    else "neutral" in
  {| compound_score := compound;
     positive_score := pos scores;
     negative_score := neg scores;
     neutral_score := neu scores;
     sentiment_label := label;
     confidence := max3 (pos scores) (neg scores) (neu scores);
     subjectivity := None |}.

Definition _analyze_textblob (text : string) : Scores F :=
  let '(polarity, subjectivity) := textblob_sentiment text in
  let '(pos_score, neg_score) :=
    if ltb zero polarity then (polarity, zero) else (zero, abs polarity) in
  let neu_score := sub one (abs polarity) in
  let total := add (add pos_score neg_score) neu_score in
  let '(pos_score, neg_score, neu_score) :=
    if ltb zero total
    then (div pos_score total, div neg_score total, div neu_score total)
    else (pos_score, neg_score, neu_score) in
  let label :=
    if leb tenth polarity then "positive"
    else if leb polarity (opp tenth) then "negative"
    else "neutral" in
  {| compound_score := polarity;
     positive_score := pos_score;
     negative_score := neg_score;
     neutral_score := neu_score;
     sentiment_label := label;
     confidence := abs polarity;
     subjectivity := Some subjectivity |}.

End models.

(** [round(x, 2)] on an exact number: to the nearest hundredth, a tie to
    the even one. *)
Definition round_half_even (x : Q) : Z :=
  let n := Qfloor (x + (1 # 2)) in
  if Qeq_bool (inject_Z n) (x + (1 # 2)) && Z.odd n then (n - 1)%Z else n.

Definition round2 (x : Q) : Q := inject_Z (round_half_even (x * 100)) / 100.

Inductive exception : Type :=
| ValueError (msg : string).

(** The dictionary that [analyze_text] returns: the model's scores and
    the metadata added by [result.update]. *)
Record Result : Type := {
  scores : Scores Q;
  model_name : string;
  text_length : Z;
  word_count : Z;
  processing_time_ms : Q
}.

(** [analyze_text]; [t0] and [t1] are the two readings of [time.time()]. *)
Definition analyze_text
    (polarity_scores : string → VaderScores Q)
    (textblob_sentiment : string → Q * Q)
    (t0 t1 : Q) (text : string) (model : string) : exception + Result :=
  let start_time := t0 in
  match
    (if decide (model = "vader") then inr (_analyze_vader polarity_scores text)
     else if decide (model = "textblob") then inr (_analyze_textblob textblob_sentiment text)
     else inl (ValueError ("Unknown model: " +:+ model)))
  with
  | inl e => inl e
  | inr result =>
      inr {| scores := result;
             model_name := model;
             text_length := PyStr.len text;
             word_count := Z.of_nat (length (PyStr.split text));
             processing_time_ms := round2 ((t1 - start_time) * 1000) |}
  end.

End Sentiment.

(** ** Sentiment analysis: properties *)

Module SentimentFacts.
Import Sentiment.

Local Open Scope Q_scope.

Lemma Qle_bool_false x y : Qle_bool x y = false ↔ y < x.
Proof.
  split.
  - intros Hb. apply Qnot_le_lt. intros Hle%Qle_bool_iff. congruence.
  - intros Hlt. destruct (Qle_bool x y) eqn:Hb; [|done].
    apply Qle_bool_iff in Hb. by apply Qlt_not_le in Hlt.
Qed.

Lemma Qdiv_one x t : t == 1 → x / t == x.
Proof. intros ->. field. Qed.

(** The three buckets before the division add up to 1, so the division
    is by 1. *)
Lemma textblob_total_pos p : 0 < p → p + 0 + (1 - Qabs p) == 1.
Proof. intros Hp. rewrite Qabs_pos by by apply Qlt_le_weak. ring. Qed.

Lemma textblob_total_nonpos p : p <= 0 → 0 + Qabs p + (1 - Qabs p) == 1.
Proof. intros _. ring. Qed.

Lemma analyze_textblob_pos (sentiment : string → Q * Q) text :
  let p := (sentiment text).1 in
  let r := _analyze_textblob sentiment text in
  0 < p →
  positive_score r == p ∧ negative_score r == 0 ∧ neutral_score r == 1 - Qabs p.
Proof.
  unfold _analyze_textblob. destruct (sentiment text) as [p s]. cbn.
  intros Hp. pose proof (textblob_total_pos p Hp) as Ht.
  assert (Qle_bool p 0 = false) as -> by by apply Qle_bool_false.
  cbn. assert (Qle_bool (p + 0 + (1 - Qabs p)) 0 = false) as ->.
  { apply Qle_bool_false. by rewrite Ht. }
  cbn. rewrite !Qdiv_one by done. done.
Qed.

Lemma analyze_textblob_nonpos (sentiment : string → Q * Q) text :
  let p := (sentiment text).1 in
  let r := _analyze_textblob sentiment text in
  p <= 0 →
  positive_score r == 0 ∧ negative_score r == Qabs p ∧
  neutral_score r == 1 - Qabs p.
Proof.
  unfold _analyze_textblob. destruct (sentiment text) as [p s]. cbn.
  intros Hp. pose proof (textblob_total_nonpos p Hp) as Ht.
  assert (Qle_bool p 0 = true) as -> by by apply Qle_bool_iff.
  cbn. assert (Qle_bool (0 + Qabs p + (1 - Qabs p)) 0 = false) as ->.
  { apply Qle_bool_false. by rewrite Ht. }
  cbn. rewrite !Qdiv_one by done. done.
Qed.

(** C4. In [_analyze_textblob] the whole magnitude of the polarity goes
    to the positive bucket when the polarity is above 0 and to the
    negative bucket otherwise, the neutral bucket gets [1 - |polarity|],
    and after the division by their sum the three proportions add up to
    exactly 1; at polarity 0 everything is in the neutral bucket. At
    polarity 0.6 the result is positive 0.6, neutral 0.4, negative 0 and
    the label "positive", over the rationals and in binary64 arithmetic
    alike. (The range [-1, 1] of the polarity is not needed.) *)
#[warnings="-inexact-float"]
Theorem analyze_textblob_buckets (sentiment : string → Q * Q) (text : string) :
  let p := (sentiment text).1 in
  let r := _analyze_textblob sentiment text in
  (0 < p → positive_score r == p ∧ negative_score r == 0) ∧
  (¬ 0 < p → positive_score r == 0 ∧ negative_score r == Qabs p) ∧
  neutral_score r == 1 - Qabs p ∧
  positive_score r + negative_score r + neutral_score r == 1 ∧
  (p == 0 →
   positive_score r == 0 ∧ negative_score r == 0 ∧ neutral_score r == 1) ∧
  (∀ subj,
     let r6 := _analyze_textblob (λ _, (6 # 10, subj)) text in
     positive_score r6 == 6 # 10 ∧ neutral_score r6 == 4 # 10 ∧
     negative_score r6 == 0 ∧ sentiment_label r6 = "positive") ∧
  (let f6 := _analyze_textblob (F:=float) (λ _, (0.6, 0.5)%float) text in
   positive_score f6 = 0.6%float ∧ neutral_score f6 = 0.4%float ∧
   negative_score f6 = 0%float ∧ sentiment_label f6 = "positive").
Proof.
  cbv zeta.
  pose proof (analyze_textblob_pos sentiment text) as Hpos.
  pose proof (analyze_textblob_nonpos sentiment text) as Hneg.
  cbv zeta in Hpos, Hneg.
  set (p := (sentiment text).1) in *.
  set (r := _analyze_textblob sentiment text) in *.
  assert (0 < p ∨ p <= 0) as Hcase.
  { destruct (Qlt_le_dec 0 p); auto. }
  split; [intros Hp; by destruct (Hpos Hp) as (? & ? & ?)|].
  split; [intros Hp%Qnot_lt_le; by destruct (Hneg Hp) as (? & ? & ?)|].
  split; [destruct Hcase as [Hp|Hp]; [by destruct (Hpos Hp) as (? & ? & ?)|
                                      by destruct (Hneg Hp) as (? & ? & ?)]|].
  split.
  { destruct Hcase as [Hp|Hp].
    - destruct (Hpos Hp) as (-> & -> & ->). by apply textblob_total_pos.
    - destruct (Hneg Hp) as (-> & -> & ->). by apply textblob_total_nonpos. }
  split.
  { intros Hz. destruct Hneg as (-> & -> & ->); [by rewrite Hz|].
    rewrite Hz. by compute. }
  split; [intros subj; by vm_compute|].
  unfold _analyze_textblob. by vm_compute.
Qed.

(** *** The model name *)

Definition registered (model : string) : Prop :=
  model = "vader" ∨ model = "textblob".

Section analyze_text.
Variable polarity_scores : string → VaderScores Q.
Variable textblob_sentiment : string → Q * Q.
Variables t0 t1 : Q.

Lemma analyze_text_registered text model :
  registered model →
  ∃ r, analyze_text polarity_scores textblob_sentiment t0 t1 text model = inr r ∧
       model_name r = model ∧
       text_length r = PyStr.len text ∧
       word_count r = Z.of_nat (length (PyStr.split text)).
Proof.
  unfold analyze_text. intros [->| ->]; simpl; eauto.
Qed.

Lemma analyze_text_unregistered text model :
  ¬ registered model →
  analyze_text polarity_scores textblob_sentiment t0 t1 text model
  = inl (ValueError ("Unknown model: " +:+ model)).
Proof.
  unfold analyze_text, registered. intros Hm.
  destruct (decide (model = "vader")); [tauto|].
  destruct (decide (model = "textblob")); [tauto|]. done.
Qed.

(** C5. [analyze_text] raises its [ValueError] exactly when the model
    name is neither "vader" nor "textblob"; for these two names it returns
    a result. *)
Theorem analyze_text_raises_iff_unknown (text model : string) :
  let result := analyze_text polarity_scores textblob_sentiment t0 t1 text model in
  ((∃ e, result = inl e) ↔ ¬ registered model) ∧
  ((∃ r, result = inr r) ↔ registered model) ∧
  (∀ e, result = inl e → e = ValueError ("Unknown model: " +:+ model)).
Proof.
  cbv zeta. destruct (decide (registered model)) as [Hm|Hm].
  - destruct (analyze_text_registered text model Hm) as (r & Hr & _).
    rewrite Hr. split; [|split]; [split|split|]; try done.
    + by intros [e ?].
    + eauto.
  - rewrite (analyze_text_unregistered text model Hm).
    split; [|split]; [split|split|]; try done.
    + eauto.
    + by intros [r ?].
    + by intros e [= <-].
Qed.

(** *** Blank text *)

Lemma split_go_blank s :
  Forall (λ c, PyStr.is_space c = true) s → PyStr.split_go [] s = [].
Proof. induction 1 as [|c s Hc _ IH]; simpl; [done|]. by rewrite Hc. Qed.

(** C6, as the code has it. On an empty or whitespace-only text and a
    registered model, [analyze_text] returns a result whose [word_count]
    is 0 and whose [text_length] is the number of characters of the text,
    which is 0 for the empty text. *)
Theorem analyze_text_blank (text model : string) :
  Forall (λ c, PyStr.is_space c = true) (list_ascii_of_string text) →
  registered model →
  ∃ r, analyze_text polarity_scores textblob_sentiment t0 t1 text model = inr r ∧
       word_count r = 0%Z ∧
       text_length r = PyStr.len text ∧ (text = "" → text_length r = 0%Z).
Proof.
  intros Hblank Hm.
  destruct (analyze_text_registered text model Hm) as (r & Hr & _ & Hlen & Hwc).
  exists r. split; [done|]. split; [|split; [done|]].
  - rewrite Hwc. unfold PyStr.split. by rewrite split_go_blank.
  - intros ->. by rewrite Hlen.
Qed.

End analyze_text.

(** What VADER and TextBlob give for a text without words. *)
Definition no_scores : string → VaderScores Q :=
  λ _, {| neg := 0; neu := 0; pos := 0; compound := 0 |}.

Definition no_sentiment : string → Q * Q := λ _, (0, 0).

Lemma analyze_text_blank_witness :
  ∃ r, analyze_text no_scores no_sentiment 0 0 "  " "vader" = inr r ∧
       word_count r = 0%Z ∧ text_length r = PyStr.len "  " ∧
       ("  " = "" → text_length r = 0%Z).
Proof.
  apply (analyze_text_blank no_scores no_sentiment 0 0 "  " "vader").
  - repeat constructor.
  - left. reflexivity.
Defined.

(** C6, as the claim has it, fails: a text of one space has length 1. *)
Lemma analyze_text_space_length :
  ∃ r, analyze_text no_scores no_sentiment 0 0 " " "vader" = inr r ∧
       word_count r = 0%Z ∧ text_length r = 1%Z ∧ text_length r ≠ 0%Z.
Proof. eexists. by vm_compute. Qed.

End SentimentFacts.

(** * Further properties of the code *)

(** ** Ticker detection *)

Module TickerMore.
Import Re ReFacts Tickers TickerFacts.

(** The test [len(t) <= 5] of the filter removes nothing: the detector
    returns the candidates that are not stop words. *)
Theorem detect_ticker_symbols_members (text t : string) :
  t ∈ _detect_ticker_symbols text ↔ t ∈ candidates text ∧ t ∉ false_positives.
Proof.
  unfold _detect_ticker_symbols, PyStr.sorted.
  rewrite merge_sort_Permutation, list_elem_of_filter, elem_of_elements.
  split; [tauto|]. intros [Hc Hstop]. repeat split; try done.
  by destruct (candidates_tickers text t Hc) as [_ [_ ?]].
Qed.

Lemma upper_char_idemp c : PyStr.upper_char (PyStr.upper_char c) = PyStr.upper_char c.
Proof. destruct c as [[] [] [] [] [] [] [] []]; reflexivity. Qed.

Lemma upper_idemp text : PyStr.upper (PyStr.upper text) = PyStr.upper text.
Proof. induction text as [|c text IH]; simpl; [done|]. by rewrite upper_char_idemp, IH. Qed.

(** Detection does not look at the case of the letters: a text and its
    upper-cased form give the same tickers. *)
Theorem detect_ticker_symbols_upper (text : string) :
  _detect_ticker_symbols (PyStr.upper text) = _detect_ticker_symbols text.
Proof.
  unfold _detect_ticker_symbols, candidates. by rewrite upper_idemp.
Qed.

(** *** Text without a marker *)

Definition no_marker (c : ascii) : Prop := c ≠ "$"%char ∧ c ≠ ":"%char.

Lemma upper_char_marker c : no_marker c → no_marker (PyStr.upper_char c).
Proof.
  unfold no_marker.
  destruct c as [[] [] [] [] [] [] [] []]; intros [H1 H2]; split; try done;
    intros [=].
Qed.

Lemma upper_no_marker text :
  Forall no_marker (chars text) → Forall no_marker (chars (PyStr.upper text)).
Proof.
  induction text as [|c text IH]; simpl; [done|].
  intros [Hc Ht]%Forall_cons. constructor; auto using upper_char_marker.
Qed.

Lemma is_prefix_app l s : is_prefix l s = true → ∃ r, s = l ++ r.
Proof.
  revert s. induction l as [|a l IH]; intros s; simpl; [by eexists|].
  destruct s as [|b s]; [done|].
  intros [Hab Hl]%andb_true_iff. apply Ascii.eqb_eq in Hab as ->.
  destruct (IH s Hl) as [r ->]. by exists r.
Qed.

Lemma is_prefix_elem l s c : is_prefix l s = true → c ∈ l → c ∈ s.
Proof. intros [r ->]%is_prefix_app ?. apply elem_of_app. by left. Qed.

Lemma paths_pat_dollar_nil prev s : Forall no_marker s → paths pat_dollar prev s = [].
Proof.
  intros Hs. apply elem_of_nil_inv. intros q Hq. unfold pat_dollar in Hq.
  inv_paths.
  match goal with H : is_prefix _ _ = true |- _ =>
    apply (is_prefix_elem _ _ "$"%char) in H; [|by left]
  end.
  by eapply Forall_forall in Hs as [? _].
Qed.

Lemma paths_pat_exchange_nil prev s : Forall no_marker s → paths pat_exchange prev s = [].
Proof.
  intros Hs. apply elem_of_nil_inv. intros q Hq. unfold pat_exchange in Hq.
  inv_paths;
    match goal with H : is_prefix _ ?r = true |- _ =>
      apply (is_prefix_elem _ _ ":"%char) in H; [|by vm_compute; set_solver];
      assert (Forall no_marker r) as Hr
        by (repeat match goal with H : rest _ = _ |- _ => rewrite H; clear H end; done)
    end;
    by eapply Forall_forall in Hr as [_ ?].
Qed.

(** A text with no [$] and no [:] holds no ticker for the detector,
    whatever words it has. *)
Theorem detect_ticker_symbols_no_marker (text : string) :
  Forall no_marker (chars text) → _detect_ticker_symbols text = [].
Proof.
  intros Hm%upper_no_marker.
  assert (candidates text = ∅) as Hc.
  { unfold candidates, patterns. cbn [foldl].
    rewrite findall_pat_stock_upper. unfold findall.
    fold (chars (PyStr.upper text)).
    rewrite (scan_nil no_marker pat_dollar), (scan_nil no_marker pat_exchange);
      auto using paths_pat_dollar_nil, paths_pat_exchange_nil. }
  unfold _detect_ticker_symbols. rewrite Hc. by vm_compute.
Qed.

Lemma detect_ticker_symbols_no_marker_witness :
  _detect_ticker_symbols "Apple stock beats on strong iPhone sales" = [].
Proof.
  apply (detect_ticker_symbols_no_marker "Apple stock beats on strong iPhone sales").
  repeat constructor; discriminate.
Defined.

(** *** Every [$] mention is found *)

(** A way of matching leaves the text in two parts: what it consumed and
    what is left. *)
Lemma paths_split r prev s q : q ∈ paths r prev s → consumed q ++ rest q = s.
Proof.
  revert prev s q. induction r as [l|p|p lo hi| |r1 IH1 r2 IH2|r1 IH1 r2 IH2|r IH];
    intros prev s q Hq.
  - simpl in Hq. destruct (is_prefix l s) eqn:Hl; [|by apply elem_of_nil in Hq].
    apply list_elem_of_singleton in Hq as ->. simpl.
    apply is_prefix_app in Hl as [r ->]. by rewrite drop_app_length.
  - simpl in Hq. destruct s as [|c s]; [by apply elem_of_nil in Hq|].
    destruct (p c); [|by apply elem_of_nil in Hq].
    by apply list_elem_of_singleton in Hq as ->.
  - simpl in Hq. destruct (lo <=? _); [|by apply elem_of_nil in Hq].
    apply list_elem_of_fmap in Hq as (k & -> & _). apply take_drop.
  - by apply paths_WordB in Hq as (-> & _ & ->).
  - apply paths_Cat in Hq as (q1 & q2 & H1 & H2 & -> & _ & ->).
    apply IH1 in H1. apply IH2 in H2. by rewrite <- (assoc_L (++)), H2.
  - apply paths_Alt in Hq as [?|?]; eauto.
  - apply paths_Grp in Hq as (q' & Hq' & -> & _ & ->). eauto.
Qed.

Lemma prev_after_cons prev c l : prev_after prev (c :: l) = prev_after (Some c) l.
Proof.
  unfold prev_after. destruct l as [|d l]; [done|].
  rewrite last_cons_cons. by destruct (last (d :: l)) eqn:Hl; [|apply last_None in Hl].
Qed.

(** When no match that starts in [pre] runs into [s], the scan of
    [pre ++ s] comes to the start of [s] with nothing to skip. *)
Lemma scan_app r pre s prev skip :
  (∀ pre2 prev' q, pre2 `suffix_of` pre → pre2 ≠ [] →
     head (paths r prev' (pre2 ++ s)) = Some q →
     length (consumed q) ≤ length pre2) →
  skip ≤ length pre →
  ∃ l, scan r prev (pre ++ s) skip = l ++ scan r (prev_after prev pre) s 0.
Proof.
  revert prev skip. induction pre as [|c pre IH]; intros prev skip Hin Hskip.
  - exists []. simpl in *. by replace skip with 0 by lia.
  - assert (∀ pre2 prev' q, pre2 `suffix_of` pre → pre2 ≠ [] →
              head (paths r prev' (pre2 ++ s)) = Some q →
              length (consumed q) ≤ length pre2) as Hin'.
    { intros pre2 prev' q Hsuf. apply Hin. by apply suffix_cons_r. }
    rewrite prev_after_cons. simpl in *. destruct skip as [|k].
    + destruct (paths r prev (c :: pre ++ s)) as [|p ps] eqn:Hp.
      * apply IH; [done|lia].
      * specialize (Hin (c :: pre) prev p). simpl in Hin. rewrite Hp in Hin.
        specialize (Hin (reflexivity _) ltac:(done) eq_refl).
        destruct (IH (Some c) (length (consumed p) - 1)) as [l ->]; [done|lia|].
        by exists (p :: l).
    + apply IH; [done|lia].
Qed.

Definition class_at (p : ascii → bool) (c : option ascii) : bool :=
  match c with Some c => p c | None => false end.

Lemma run_app_exact p h w post :
  Forall (λ c, p c = true) w → length w ≤ h →
  length w = h ∨ class_at p (head post) = false →
  run p (Some h) (w ++ post) = length w.
Proof.
  intros Hw. revert h. induction Hw as [|c w Hc Hw IH]; intros h Hh Hend.
  - destruct h as [|h], post as [|d post]; try done.
    simpl in *. destruct Hend as [?|Hd]; [lia|by rewrite Hd].
  - simpl in *. destruct h as [|h]; [lia|]. rewrite Hc. simpl.
    rewrite IH; [done|lia|]. destruct Hend as [?|?]; [left; lia|by right].
Qed.

Lemma downto_head lo n : head (downto lo n) = Some (lo + n).
Proof. destruct n; simpl; f_equal; lia. Qed.

(** The first way of matching [pat_dollar] at a [$] followed by the
    letters [w], when [w] is all that the greedy group can take. *)
Lemma paths_pat_dollar_head prev w post :
  Forall (λ c, PyStr.is_AZ c = true) w → 1 ≤ length w ≤ 5 →
  length w = 5 ∨ class_at PyStr.is_AZ (head post) = false →
  head (paths pat_dollar prev ("$"%char :: w ++ post))
  = Some (Path ("$"%char :: w) [w] post).
Proof.
  intros Hw Hlen Hend. unfold pat_dollar.
  cbn [paths chars list_ascii_of_string is_prefix length drop].
  rewrite Ascii.eqb_refl. cbn [andb mbind list_bind app consumed rest groups].
  rewrite (run_app_exact _ 5 w post) by (done || lia).
  assert ((1 <=? length w) = true) as -> by (apply Nat.leb_le; lia).
  rewrite app_nil_r.
  destruct (downto 1 (length w - 1)) as [|k ks] eqn:Hd.
  { by pose proof (downto_head 1 (length w - 1)) as Hh; rewrite Hd in Hh. }
  pose proof (downto_head 1 (length w - 1)) as Hh. rewrite Hd in Hh.
  simpl in Hh. injection Hh as ->. cbn.
  replace (S (length w - 1)) with (length w) by lia.
  by rewrite drop_0, take_app_length, drop_app_length.
Qed.

(** A match of [pat_dollar] that starts before a [$] ends before it. *)
Lemma paths_pat_dollar_stops prev pre2 s q :
  pre2 ≠ [] → q ∈ paths pat_dollar prev (pre2 ++ "$"%char :: s) →
  length (consumed q) ≤ length pre2.
Proof.
  intros Hne Hq. pose proof (paths_split _ _ _ _ Hq) as Hsplit.
  unfold pat_dollar in Hq. inv_paths.
  destruct (decide (length (consumed q) ≤ length pre2)) as [|Hlong]; [done|].
  assert ((consumed q ++ rest q) !! length pre2 = Some "$"%char) as Hlook.
  { rewrite Hsplit. by rewrite list_lookup_middle. }
  rewrite lookup_app_l in Hlook by lia.
  repeat match goal with H : consumed _ = _ |- _ => rewrite H in Hlook; clear H end.
  destruct pre2 as [|c pre2]; [done|]. simpl in Hlook.
  match goal with H : Forall _ _ |- _ =>
    eapply Forall_lookup_1 in H; [|exact Hlook] end.
  done.
Qed.

Lemma add_matches_mono (X : gset string) ms t : t ∈ X → t ∈ add_matches X ms.
Proof. destruct ms as [l|[|m l]]; simpl; set_solver. Qed.

(** A [$] followed by one to five letters is found wherever it stands in
    the text: when the upper-cased text is [pre ++ "$" ++ w ++ post], with
    [w] the letters that follow the [$] (all of them, or the first five),
    then [w] is returned unless it is a stop word. *)
Theorem detect_ticker_symbols_dollar (text : string) (pre w post : list ascii) :
  chars (PyStr.upper text) = pre ++ "$"%char :: w ++ post →
  Forall (λ c, PyStr.is_AZ c = true) w → 1 ≤ length w ≤ 5 →
  length w = 5 ∨ class_at PyStr.is_AZ (head post) = false →
  string_of_list_ascii w ∉ false_positives →
  string_of_list_ascii w ∈ _detect_ticker_symbols text.
Proof.
  intros Htext Hw Hlen Hend Hstop.
  apply detect_ticker_symbols_members. split; [|done].
  unfold candidates, patterns. cbn [foldl]. do 2 apply add_matches_mono.
  unfold findall. fold (chars (PyStr.upper text)). rewrite Htext.
  destruct (scan_app pat_dollar pre ("$"%char :: w ++ post) None 0) as [l ->];
    [|lia|].
  { intros pre2 prev' q _ Hne [qs Hq]%head_Some.
    eapply paths_pat_dollar_stops; [done|]. rewrite Hq. left. }
  pose proof (paths_pat_dollar_head (prev_after None pre) w post Hw Hlen Hend)
    as [qs Hq]%head_Some.
  cbn [scan]. rewrite Hq. simpl.
  rewrite elem_of_union, elem_of_list_to_set. right.
  rewrite fmap_app, elem_of_app. right. left.
Qed.

Lemma detect_ticker_symbols_dollar_witness :
  "TSLA" ∈ _detect_ticker_symbols "buy $tsla now".
Proof.
  apply (detect_ticker_symbols_dollar "buy $tsla now"
           (chars "BUY ") (chars "TSLA") (chars " NOW")).
  - reflexivity.
  - repeat constructor.
  - simpl; lia.
  - right. reflexivity.
  - vm_compute. set_solver.
Defined.

End TickerMore.

(** ** Requests and retries *)

Module ScraperMore.
Import Scraper ScraperFacts.

Local Open Scope Z_scope.

(** *** What a call sends and returns *)

(** A call of [session.request] sends at least one attempt and at most
    one more than the retries it has; a response that it returns is the
    server's answer to the last attempt, with a status that is not
    retried. *)
Lemma send_bounds srv method total k :
  let '(out, k') := send srv method total k in
  (k < k' ≤ k + S total)%nat ∧
  ∀ r, out = Returned r →
       srv (pred k') = Answered r ∧ is_retry method (status_code r) = false.
Proof.
  revert k. induction total as [|total IH]; intros k; cbn [send];
    destruct (srv k) as [r| |] eqn:Hk;
    try destruct (is_retry method (status_code r)) eqn:Hr;
    try destruct (is_method_retryable method);
    try (specialize (IH (S k)); destruct (send srv method total (S k)) as [out k'];
         destruct IH as [Hb Hres]);
    (split; [lia|]); try done; try (intros r' [= <-]; by simpl).
Qed.

(** A response is handed to the caller only when its status is 200, and
    it is the answer the server gave to the last attempt of the call. *)
Theorem make_request_returns_200 (srv : server) (self : scraper) (w : world)
    (url method : string) (r : Response) :
  (_make_request srv self w url method).1.1 = Some r →
  status_code r = 200 ∧
  srv (pred (sent (_make_request srv self w url method).2)) = Answered r.
Proof.
  unfold _make_request, session_request. simpl max_retries.
  set (w0 := if 1 <? _ then _ else _).
  pose proof (send_bounds srv method (max_retries self) (sent w0)) as H.
  destruct (send _ _ _ _) as [[r'|e] k]; [|done].
  destruct H as [_ H]. destruct (H r' eq_refl) as [Hk _].
  destruct (status_code r' =? 200) eqn:Hst; [|done].
  simpl. intros [= <-]. split; [lia|done].
Qed.

Lemma make_request_returns_200_witness :
  status_code (ok "page") = 200 ∧
  script [ok "page"]
    (pred (sent (_make_request (script [ok "page"]) new_scraper fresh_world
                   "http://x" "GET").2))
  = Answered (ok "page").
Proof.
  apply (make_request_returns_200 (script [ok "page"]) new_scraper fresh_world
           "http://x" "GET" (ok "page")).
  reflexivity.
Defined.

(** The statuses that end a call at once, whatever the method: 2xx, and
    4xx and 5xx outside the force list, except 413 (which the session
    tries again when the answer carries a [Retry-After] header). A 3xx
    status is not one of them: the session follows redirects. *)
Definition final_status (s : Z) : Prop :=
  (200 ≤ s < 300 ∨ 400 ≤ s < 600) ∧ (s ∉ status_forcelist) ∧ s ≠ 413.

(** When the first attempt of a call is answered with such a status
    (404, say), the call ends after that one attempt: the caller gets the
    response if its status is 200, and [None] with one more failed request
    otherwise. *)
Theorem make_request_not_retried (srv : server) (self : scraper) (w : world)
    (url method : string) (r : Response) :
  srv (sent w) = Answered r → final_status (status_code r) →
  let '(res, self', w') := _make_request srv self w url method in
  sent w' = (sent w + 1)%nat ∧
  res = (if status_code r =? 200 then Some r else None) ∧
  failed_requests (stats self')
  = failed_requests (stats self) + (if status_code r =? 200 then 0 else 1).
Proof.
  intros Hk (_ & Hforce & _). unfold _make_request, session_request. simpl max_retries.
  assert (is_retry method (status_code r) = false) as Hr.
  { unfold is_retry. rewrite bool_decide_eq_false_2 by done. apply andb_false_r. }
  set (w0 := if 1 <? _ then _ else _).
  assert (sent w0 = sent w) as Hw0 by (unfold w0; by destruct (1 <? _)).
  assert (send srv method (max_retries self) (sent w0) = (Returned r, S (sent w0)))
    as ->.
  { rewrite Hw0. destruct (max_retries self); cbn [send]; by rewrite Hk, Hr. }
  destruct (status_code r =? 200); simpl; repeat split; lia.
Qed.

Definition not_found (b : string) : Response := {| status_code := 404; body := b |}.

Lemma make_request_not_retried_witness :
  let '(res, self', w') :=
    _make_request (always (not_found "")) new_scraper fresh_world "http://x" "POST" in
  sent w' = (sent fresh_world + 1)%nat ∧
  res = (if status_code (not_found "") =? 200 then Some (not_found "") else None) ∧
  failed_requests (stats self')
  = failed_requests (stats new_scraper)
    + (if status_code (not_found "") =? 200 then 0 else 1).
Proof.
  apply (make_request_not_retried (always (not_found "")) new_scraper fresh_world
           "http://x" "POST" (not_found "")).
  - reflexivity.
  - unfold final_status, status_forcelist. simpl. split; [lia|]. split; [|lia].
    rewrite !elem_of_cons, elem_of_nil. lia.
Defined.

End ScraperMore.

(** ** [_make_request] with everything that can leave it

    [Scraper._make_request] is the call when [time.sleep] returns and
    [session.request] returns a response or raises a [RequestException].
    Here the two library calls may also raise any other exception, which
    the [except] clause does not catch: the call then ends by raising,
    after [requests_made] has been incremented. The world is left open,
    so that it can record the order of the pauses and the requests. *)

Module Calls.
Import Scraper ScraperFacts.

Local Open Scope Z_scope.

(** The exceptions outside [RequestException] that the library calls of
    [_make_request] raise. *)
Inductive exception : Type :=
| ValueError (msg : string)
| TypeError (msg : string).

(** The keyword arguments of a call: names and values. *)
Definition kwargs : Type := list (string * string).

(** How a call of [_make_request] ends: it returns the response or
    [None], or an exception leaves it. *)
Inductive ending (W : Type) : Type :=
| Return (res : option Response) (self' : scraper) (w' : W)
| Raise (e : exception) (self' : scraper) (w' : W).
Arguments Return {W}. Arguments Raise {W}.

Section call.
Context {W : Type}.

(** [time.sleep(secs)] and
    [self.session.request(method=method, url=url, timeout=self.timeout, **kwargs)]
    in a world: each returns or raises. *)
Variable time_sleep : Q → W → exception + W.
Variable request : scraper → string → string → kwargs → W → (exception + outcome) * W.

Definition _make_request (self : scraper) (w : W) (url method : string)
    (kw : kwargs) : ending W :=
  let st := incr_requests_made (stats self) in
  match (if 1 <? requests_made st then time_sleep (delay_seconds self) w else inr w) with
  | inl e => Raise e (with_stats self st) w
  | inr w =>
      match request (with_stats self st) method url kw w with
      | (inr (Returned response), w) =>
          if status_code response =? 200
          then Return (Some response) (with_stats self (incr_successful_requests st)) w
          else Return None (with_stats self (incr_failed_requests st)) w
      | (inr (Raised e), w) =>
          Return None (with_stats self (incr_failed_requests st)) w
      | (inl e, w) => Raise e (with_stats self st) w
      end
  end.

(** A run of calls on one scraper, each with its url, method and keyword
    arguments; the run stops at the first call that raises. *)
Fixpoint make_requests (self : scraper) (w : W)
    (calls : list (string * string * kwargs)) : exception * scraper * W + scraper * W :=
  match calls with
  | [] => inr (self, w)
  | (url, method, kw) :: calls' =>
      match _make_request self w url method kw with
      | Return _ self' w' => make_requests self' w' calls'
      | Raise e self' w' => inl (e, self', w')
      end
  end.

End call.

(** *** The library calls *)

(** [time.sleep] refuses a negative length; otherwise it pauses. *)
Definition sleeping {W : Type} (pause : Q → W → W) (secs : Q) (w : W) : exception + W :=
  if Qle_bool 0 secs then inr (pause secs w)
  else inl (ValueError "sleep length must be non-negative").

Definition time_sleep : Q → world → exception + world := sleeping sleep.

(** The keyword parameters of [Session.request] besides [method], [url]
    and [timeout], which the call passes itself. *)
Definition request_keywords : list string :=
  ["params"; "data"; "headers"; "cookies"; "files"; "auth"; "allow_redirects";
   "proxies"; "hooks"; "stream"; "verify"; "cert"; "json"].

(** [session.request] of the session of [_create_session], for a url
    that the session accepts: a keyword that [Session.request] does not
    have, or has already been given, is a [TypeError] of the call; a
    timeout that is not above 0 is a [ValueError] of the adapter, before
    anything is sent; otherwise the attempts are made as
    [Scraper.session_request] has them. *)
Definition session_request (srv : server) (self : scraper) (method url : string)
    (kw : kwargs) (w : world) : (exception + outcome) * world :=
  if negb (forallb (λ kv, bool_decide (kv.1 ∈ request_keywords)) kw)
  then (inl (TypeError "request() got an unexpected keyword argument"), w)
  else if timeout self <=? 0
  then (inl (ValueError "Attempted to set connect timeout to a value less than or equal to 0"), w)
  else let '(out, w') := Scraper.session_request srv self w method url in
       (inr out, w').

(** The pauses and the calls of [session.request], in the order in which
    they are made. *)
Inductive event : Type :=
| Slept (secs : Q)
| Requested (method url : string).

Definition log_sleep : Q → list event → exception + list event :=
  sleeping (λ secs log, log ++ [Slept secs]).

(** A session that is only observed: what it does with a request is left
    to [session]; the call is written to the log. *)
Definition log_request
    (session : scraper → string → string → kwargs → list event → exception + outcome)
    (self : scraper) (method url : string) (kw : kwargs) (log : list event)
    : (exception + outcome) * list event :=
  (session self method url kw log, log ++ [Requested method url]).

End Calls.

Module CallsFacts.
Import Scraper ScraperFacts Calls.

Local Open Scope Z_scope.

Section call.
Context {W : Type}.
Variable time_sleep : Q → W → exception + W.
Variable request : scraper → string → string → kwargs → W → (exception + outcome) * W.

(** A call that returns has counted the request once, as a success or as
    a failure; a call that raises has counted it in [requests_made]
    only. *)
Lemma make_request_ending self w url method kw :
  match Calls._make_request time_sleep request self w url method kw with
  | Return res self' _ =>
      counted_once (stats self) res (stats self') ∧
      start_time (stats self') = start_time (stats self) ∧
      end_time (stats self') = end_time (stats self) ∧
      delay_seconds self' = delay_seconds self
  | Raise _ self' _ =>
      requests_made (stats self') = requests_made (stats self) + 1 ∧
      successful_requests (stats self') = successful_requests (stats self) ∧
      failed_requests (stats self') = failed_requests (stats self)
  end.
Proof.
  unfold Calls._make_request, counted_once.
  destruct (if 1 <? _ then _ else _) as [e|w1]; [done|].
  destruct (request _ _ _ _ _) as [[e|[r|e]] w2]; [done| |];
    [destruct (status_code r =? 200)|]; simpl; eauto 10.
Qed.

Lemma make_requests_returned self w calls self' w' :
  Calls.make_requests time_sleep request self w calls = inr (self', w') →
  let st := stats self in
  let st' := stats self' in
  requests_made st' = requests_made st + Z.of_nat (length calls) ∧
  successful_requests st' + failed_requests st'
  = successful_requests st + failed_requests st + Z.of_nat (length calls) ∧
  successful_requests st ≤ successful_requests st' ∧
  failed_requests st ≤ failed_requests st' ∧
  items_scraped st' = items_scraped st ∧
  start_time st' = start_time st ∧ end_time st' = end_time st.
Proof.
  cbv zeta. revert self w.
  induction calls as [|[[url method] kw] calls IH]; intros self w.
  { intros [= <- <-]. simpl. repeat split; lia. }
  cbn [Calls.make_requests length].
  pose proof (make_request_ending self w url method kw) as Hc.
  destruct (Calls._make_request _ _ _ _ _ _ _) as [res self1 w1|e self1 w1]; [|done].
  intros Hrun. specialize (IH self1 w1 Hrun).
  destruct Hc as ((? & ? & ?) & ? & ? & _), IH as (? & ? & ? & ? & ? & ? & ?).
  repeat split; try lia; congruence.
Qed.


(** A run from start to end: after [start_scraping], [n] calls that
    return and [end_scraping], the statistics show [n] requests made,
    successes and failures that add up to [n], no item scraped, and the
    two times. *)
Theorem run_statistics (delay : Q) (retries : nat) (tmo : Z) (ua : option string)
    (w : W) (calls : list (string * string * kwargs)) (t0 t1 : datetime)
    (self' : scraper) (w' : W) :
  Calls.make_requests time_sleep request
    (start_scraping (__init__ delay retries tmo ua) t0) w calls = inr (self', w') →
  let st := get_statistics (end_scraping self' t1) in
  requests_made st = Z.of_nat (length calls) ∧
  successful_requests st + failed_requests st = Z.of_nat (length calls) ∧
  0 ≤ successful_requests st ∧ 0 ≤ failed_requests st ∧
  items_scraped st = 0 ∧
  start_time st = Some t0 ∧ end_time st = Some t1.
Proof.
  intros Hrun. apply make_requests_returned in Hrun. cbv zeta in *. simpl in *.
  destruct Hrun as (? & ? & ? & ? & ? & ? & _). repeat split; try lia; done.
Qed.

End call.

(** When the library calls raise nothing but a [RequestException], the
    call is [Scraper._make_request]. *)
Lemma make_request_no_raise srv self w url method kw :
  Calls._make_request (λ secs w, inr (sleep secs w))
    (λ self method url _ w,
       let '(out, w') := Scraper.session_request srv self w method url in (inr out, w'))
    self w url method kw
  = let '(res, self', w') := Scraper._make_request srv self w url method in
    Return res self' w'.
Proof.
  unfold Calls._make_request, Scraper._make_request.
  destruct (1 <? _);
    destruct (Scraper.session_request _ _ _ _ _) as [[r|e] w1]; try done;
    by destruct (status_code r =? 200).
Qed.



Lemma run_statistics_witness :
  ∃ self' w',
    Calls.make_requests time_sleep (Calls.session_request (always (ok "page")))
      (start_scraping (__init__ 1 3 30 None) 10) fresh_world
      [("http://x", "GET", []); ("http://y", "GET", [])] = inr (self', w') ∧
    let st := get_statistics (end_scraping self' 20) in
    requests_made st = 2 ∧
    successful_requests st + failed_requests st = 2 ∧
    0 ≤ successful_requests st ∧ 0 ≤ failed_requests st ∧
    items_scraped st = 0 ∧
    start_time st = Some 10 ∧ end_time st = Some 20.
Proof.
  eexists _, _. split; [reflexivity|].
  eapply (run_statistics time_sleep (Calls.session_request (always (ok "page")))
            1%Q 3%nat 30 None fresh_world
            [("http://x", "GET", []); ("http://y", "GET", [])] 10 20).
  reflexivity.
Defined.

(** *** The pause between requests *)

(** The pause and the request of every call after the first. *)
Definition later_calls (delay : Q) (calls : list (string * string * kwargs)) : list event :=
  '(url, method, _) ← calls; [Slept delay; Requested method url].

(** What a run of calls on a new scraper does, in order: the first
    request at once, and a pause of [delay] right before each later
    request. *)
Definition paced (delay : Q) (calls : list (string * string * kwargs)) : list event :=
  match calls with
  | [] => []
  | (url, method, _) :: calls' => Requested method url :: later_calls delay calls'
  end.

Section pace.
Variable session : scraper → string → string → kwargs → list event → exception + outcome.

Lemma make_request_log self log url method kw res self' log' :
  Calls._make_request log_sleep (log_request session) self log url method kw
  = Return res self' log' →
  log' = log ++ (if 0 <? requests_made (stats self)
                 then [Slept (delay_seconds self)] else [])
             ++ [Requested method url].
Proof.
  unfold Calls._make_request, log_request, log_sleep, sleeping.
  cbn [incr_requests_made requests_made].
  replace (1 <? requests_made (stats self) + 1) with (0 <? requests_made (stats self))
    by (destruct (0 <? _) eqn:H0, (1 <? _) eqn:H1; lia).
  destruct (0 <? requests_made (stats self));
    [destruct (Qle_bool 0 (delay_seconds self)); [|done]|];
    (destruct (session _ _ _ _ _) as [e|[r|e]]; [done| |];
     [destruct (status_code r =? 200)|]);
    intros [= _ _ <-]; by rewrite <- ?(assoc_L (++)).
Qed.

Lemma make_requests_log_later self log calls self' log' :
  0 < requests_made (stats self) →
  Calls.make_requests log_sleep (log_request session) self log calls = inr (self', log') →
  log' = log ++ later_calls (delay_seconds self) calls.
Proof.
  revert self log. induction calls as [|[[url method] kw] calls IH]; intros self log Hpos.
  { intros [= _ <-]. unfold later_calls. simpl. by rewrite app_nil_r. }
  cbn [Calls.make_requests].
  pose proof (make_request_ending log_sleep (log_request session) self log url method kw) as Hc.
  pose proof (make_request_log self log url method kw) as Hl.
  destruct (Calls._make_request _ _ _ _ _ _ _) as [res self1 log1|e self1 log1]; [|done].
  intros Hrun. destruct Hc as ((Hrm & _) & _ & _ & Hd).
  apply IH in Hrun; [|lia]. rewrite Hrun, Hd, (Hl res self1 log1 eq_refl).
  assert ((0 <? requests_made (stats self)) = true) as -> by lia.
  unfold later_calls. cbn [mbind list_bind]. by rewrite <- !(assoc_L (++)).
Qed.

(** Rate limiting: in a run of calls on a new scraper that all return,
    the first request is made at once and every later request is made
    right after a pause of [delay_seconds]. *)
Theorem make_requests_paced (delay : Q) (retries : nat) (tmo : Z) (ua : option string)
    (calls : list (string * string * kwargs)) (self' : scraper) (log : list event) :
  Calls.make_requests log_sleep (log_request session)
    (__init__ delay retries tmo ua) [] calls = inr (self', log) →
  log = paced delay calls.
Proof.
  destruct calls as [|[[url method] kw] calls]; [by intros [= _ <-]|].
  cbn [Calls.make_requests paced].
  pose proof (make_request_ending log_sleep (log_request session)
                (__init__ delay retries tmo ua) [] url method kw) as Hc.
  pose proof (make_request_log (__init__ delay retries tmo ua) [] url method kw) as Hl.
  destruct (Calls._make_request _ _ _ _ _ _ _) as [res self1 log1|e self1 log1]; [|done].
  intros Hrun. destruct Hc as ((Hrm & _) & _ & _ & Hd). simpl in Hrm, Hd.
  apply make_requests_log_later in Hrun; [|lia].
  by rewrite Hrun, Hd, (Hl res self1 log1 eq_refl).
Qed.

End pace.

Lemma make_requests_paced_witness :
  ∃ self' log,
    Calls.make_requests log_sleep (log_request (λ _ _ _ _ _, inr (Returned (ok "page"))))
      (__init__ (1 # 2) 3 30 None) []
      [("http://x", "GET", []); ("http://y", "GET", []); ("http://z", "GET", [])]
    = inr (self', log) ∧
    log = [Requested "GET" "http://x"; Slept (1 # 2); Requested "GET" "http://y";
           Slept (1 # 2); Requested "GET" "http://z"].
Proof.
  eexists _, _. split; [reflexivity|].
  eapply (make_requests_paced (λ _ _ _ _ _, inr (Returned (ok "page")))
            (1 # 2) 3%nat 30 None
            [("http://x", "GET", []); ("http://y", "GET", []); ("http://z", "GET", [])]).
  reflexivity.
Defined.

End CallsFacts.

(** ** Labels, proportions and counts of the analyzer *)

Module SentimentMore.
Import Sentiment SentimentFacts.

Local Open Scope Q_scope.

(** *** The VADER result *)

(** The label of the VADER result follows the compound score: positive
    from 0.05 up, negative from -0.05 down, neutral strictly between. *)
Theorem analyze_vader_label (polarity_scores : string → VaderScores Q)
    (text : string) :
  let c := compound (polarity_scores text) in
  let r := _analyze_vader polarity_scores text in
  compound_score r = c ∧
  (sentiment_label r = "positive" ↔ 1 # 20 <= c) ∧
  (sentiment_label r = "negative" ↔ c <= - (1 # 20)) ∧
  (sentiment_label r = "neutral" ↔ - (1 # 20) < c ∧ c < 1 # 20).
Proof.
  cbv zeta. unfold _analyze_vader. cbn.
  set (c := compound (polarity_scores text)).
  destruct (Qle_bool (1 # 20) c) eqn:Hhi; [|destruct (Qle_bool c (- (1 # 20))) eqn:Hlo].
  - apply Qle_bool_iff in Hhi.
    assert (¬ c <= - (1 # 20)).
    { intros Hle. apply (Qle_trans _ _ _ Hhi) in Hle. by apply Qle_bool_iff in Hle. }
    assert (¬ c < 1 # 20) by by apply Qle_not_lt.
    repeat split; try done; tauto.
  - apply Qle_bool_false in Hhi. apply Qle_bool_iff in Hlo.
    assert (¬ 1 # 20 <= c) by by apply Qlt_not_le.
    assert (¬ - (1 # 20) < c) by by apply Qle_not_lt.
    repeat split; try done; tauto.
  - apply Qle_bool_false in Hhi, Hlo.
    assert (¬ 1 # 20 <= c) by by apply Qlt_not_le.
    assert (¬ c <= - (1 # 20)) by by apply Qlt_not_le.
    repeat split; try done; tauto.
Qed.

Lemma max3_Q (a b c : Q) :
  let m := max3 a b c in
  a <= m ∧ b <= m ∧ c <= m ∧ (m = a ∨ m = b ∨ m = c).
Proof.
  unfold max3. cbn.
  destruct (Qle_bool b a) eqn:Hab; cbn;
    [destruct (Qle_bool c a) eqn:Hc|destruct (Qle_bool c b) eqn:Hc]; cbn;
    repeat match goal with
    | H : Qle_bool _ _ = true |- _ => apply Qle_bool_iff in H
    | H : Qle_bool _ _ = false |- _ => apply Qle_bool_false in H
    end;
    repeat split; eauto using Qle_refl, Qlt_le_weak, Qle_trans, Qlt_trans.
Qed.

(** The confidence of the VADER result is the largest of the three
    proportions: it is one of them, and none of them is above it. *)
Theorem analyze_vader_confidence (polarity_scores : string → VaderScores Q)
    (text : string) :
  let s := polarity_scores text in
  let r := _analyze_vader polarity_scores text in
  positive_score r <= confidence r ∧ negative_score r <= confidence r ∧
  neutral_score r <= confidence r ∧
  (confidence r = pos s ∨ confidence r = neg s ∨ confidence r = neu s).
Proof. cbv zeta. unfold _analyze_vader. cbn [confidence positive_score negative_score neutral_score]. apply max3_Q. Qed.

(** *** The TextBlob result *)

Lemma analyze_textblob_label_eq (sentiment : string → Q * Q) text :
  sentiment_label (_analyze_textblob sentiment text)
  = if Qle_bool (1 # 10) (sentiment text).1 then "positive"
    else if Qle_bool (sentiment text).1 (- (1 # 10)) then "negative"
    else "neutral".
Proof.
  unfold _analyze_textblob. destruct (sentiment text) as [p s]. cbn.
  destruct (negb (Qle_bool p 0)); cbn; by destruct (negb (Qle_bool _ 0)).
Qed.

(** The label of the TextBlob result follows the polarity, with the
    thresholds 0.1 and -0.1. *)
Lemma analyze_textblob_label (sentiment : string → Q * Q) text :
  let p := (sentiment text).1 in
  let r := _analyze_textblob sentiment text in
  (sentiment_label r = "positive" ↔ 1 # 10 <= p) ∧
  (sentiment_label r = "negative" ↔ p <= - (1 # 10)) ∧
  (sentiment_label r = "neutral" ↔ - (1 # 10) < p ∧ p < 1 # 10).
Proof.
  cbv zeta. rewrite analyze_textblob_label_eq.
  set (p := (sentiment text).1).
  destruct (Qle_bool (1 # 10) p) eqn:Hhi; [|destruct (Qle_bool p (- (1 # 10))) eqn:Hlo];
    repeat match goal with
    | H : Qle_bool _ _ = true |- _ => apply Qle_bool_iff in H
    | H : Qle_bool _ _ = false |- _ => apply Qle_bool_false in H
    end;
    (split; [|split]); split; try done; try (intros; lra).
Qed.

(** The label agrees with the buckets: a positive label comes with a
    positive proportion of at least 0.1 and no negative proportion, a
    negative label the other way round, and a neutral label with both
    below 0.1 and a neutral proportion of at least 0.9. *)
Theorem analyze_textblob_label_buckets (sentiment : string → Q * Q) (text : string) :
  let r := _analyze_textblob sentiment text in
  (sentiment_label r = "positive" →
   1 # 10 <= positive_score r ∧ negative_score r == 0) ∧
  (sentiment_label r = "negative" →
   1 # 10 <= negative_score r ∧ positive_score r == 0) ∧
  (sentiment_label r = "neutral" →
   positive_score r < 1 # 10 ∧ negative_score r < 1 # 10 ∧
   9 # 10 <= neutral_score r) ∧
  (sentiment_label r = "positive" ∨ sentiment_label r = "negative" ∨
   sentiment_label r = "neutral").
Proof.
  cbv zeta.
  pose proof (analyze_textblob_label sentiment text) as (Hp & Hn & Hz).
  pose proof (analyze_textblob_pos sentiment text) as Hpos.
  pose proof (analyze_textblob_nonpos sentiment text) as Hneg.
  cbv zeta in Hpos, Hneg.
  set (p := (sentiment text).1) in *.
  set (r := _analyze_textblob sentiment text) in *.
  split; [|split; [|split]].
  - intros Hl%Hp. destruct Hpos as (-> & -> & _); [lra|]. split; [done|reflexivity].
  - intros Hl%Hn. destruct Hneg as (-> & -> & _); [lra|].
    rewrite Qabs_neg by lra. split; [lra|reflexivity].
  - intros [Hlo Hhi]%Hz. destruct (Qlt_le_dec 0 p) as [H0|H0].
    + destruct Hpos as (-> & -> & ->); [done|]. rewrite Qabs_pos by lra. lra.
    + destruct Hneg as (-> & -> & ->); [done|]. rewrite Qabs_neg by lra. lra.
  - subst r. rewrite analyze_textblob_label_eq.
    destruct (Qle_bool _ _); [|destruct (Qle_bool _ _)]; auto.
Qed.

(** For a polarity in [-1, 1] the three proportions and the confidence
    are in [0, 1], and the positive and the negative proportion are never
    both above 0. *)
Theorem analyze_textblob_ranges (sentiment : string → Q * Q) (text : string) :
  let p := (sentiment text).1 in
  let r := _analyze_textblob sentiment text in
  -1 <= p → p <= 1 →
  (0 <= positive_score r ∧ positive_score r <= 1) ∧
  (0 <= negative_score r ∧ negative_score r <= 1) ∧
  (0 <= neutral_score r ∧ neutral_score r <= 1) ∧
  (0 <= confidence r ∧ confidence r <= 1) ∧
  (positive_score r == 0 ∨ negative_score r == 0) ∧
  compound_score r = p.
Proof.
  cbv zeta. intros Hlo Hhi.
  pose proof (analyze_textblob_pos sentiment text) as Hpos.
  pose proof (analyze_textblob_nonpos sentiment text) as Hneg.
  cbv zeta in Hpos, Hneg.
  assert (confidence (_analyze_textblob sentiment text) = Qabs (sentiment text).1
          ∧ compound_score (_analyze_textblob sentiment text) = (sentiment text).1)
    as [-> ->].
  { unfold _analyze_textblob. destruct (sentiment text) as [p s]. cbn.
    destruct (negb (Qle_bool p 0)); cbn; by destruct (negb (Qle_bool _ 0)). }
  set (p := (sentiment text).1) in *.
  destruct (Qlt_le_dec 0 p) as [H0|H0].
  - destruct Hpos as (-> & -> & ->); [done|]. rewrite Qabs_pos by lra.
    repeat split; lra.
  - destruct Hneg as (-> & -> & ->); [done|]. rewrite Qabs_neg by lra.
    repeat split; lra.
Qed.

Lemma analyze_textblob_ranges_witness :
  let r := _analyze_textblob (λ _, (-(3 # 10), 1 # 2)) "weak quarter" in
  (0 <= positive_score r ∧ positive_score r <= 1) ∧
  (0 <= negative_score r ∧ negative_score r <= 1) ∧
  (0 <= neutral_score r ∧ neutral_score r <= 1) ∧
  (0 <= confidence r ∧ confidence r <= 1) ∧
  (positive_score r == 0 ∨ negative_score r == 0) ∧
  compound_score r = -(3 # 10).
Proof.
  apply (analyze_textblob_ranges (λ _, (-(3 # 10), 1 # 2)) "weak quarter");
    simpl; lra.
Defined.

(** *** The metadata that [analyze_text] adds *)

Local Open Scope Z_scope.

Lemma split_go_length cur s :
  (2 * length (PyStr.split_go cur s)
   ≤ length s + match cur with [] => 1 | _ => 2 end)%nat.
Proof.
  revert cur. induction s as [|c s IH]; intros cur; simpl.
  - destruct cur; simpl; lia.
  - destruct (PyStr.is_space c).
    + destruct cur; simpl; specialize (IH []); simpl in IH; lia.
    + specialize (IH (c :: cur)). simpl in IH. destruct cur; lia.
Qed.

Lemma length_list_ascii_of_string t :
  length (list_ascii_of_string t) = String.length t.
Proof. induction t; simpl; congruence. Qed.

(** Words are separated by whitespace, so a text of [n] characters has
    at most [(n + 1) / 2] words: in the result of [analyze_text],
    [0 <= word_count], [2 * word_count <= text_length + 1], and the two
    are the counts of the text analyzed. *)
Theorem analyze_text_counts
    (polarity_scores : string → VaderScores Q)
    (textblob_sentiment : string → Q * Q) (t0 t1 : Q)
    (text model : string) (r : Result) :
  analyze_text polarity_scores textblob_sentiment t0 t1 text model = inr r →
  text_length r = PyStr.len text ∧
  word_count r = Z.of_nat (length (PyStr.split text)) ∧
  0 ≤ word_count r ∧ 2 * word_count r ≤ text_length r + 1 ∧
  model_name r = model.
Proof.
  unfold analyze_text.
  pose proof (split_go_length [] (list_ascii_of_string text)) as Hlen.
  rewrite length_list_ascii_of_string in Hlen. fold (PyStr.split text) in Hlen.
  destruct (decide (model = "vader")); [|destruct (decide (model = "textblob"))];
    intros [= <-]; unfold PyStr.len; simpl; repeat split; lia.
Qed.

Lemma analyze_text_counts_witness :
  ∃ r, analyze_text no_scores no_sentiment 0 0 "buy the dip" "vader" = inr r ∧
       text_length r = PyStr.len "buy the dip" ∧
       word_count r = Z.of_nat (length (PyStr.split "buy the dip")) ∧
       0 ≤ word_count r ∧ 2 * word_count r ≤ text_length r + 1 ∧
       model_name r = "vader".
Proof.
  eexists. split; [reflexivity|].
  apply (analyze_text_counts no_scores no_sentiment 0 0 "buy the dip" "vader").
  reflexivity.
Defined.

End SentimentMore.

(** ** [finpulse/models/sentiment_score.py] and the rows that
    [generate_sample_data.py] builds from a result *)

Module Models.
Import Sentiment.

(** The columns of [SentimentScore]; a column that the constructor call
    leaves out is [None]. *)
Record SentimentScore : Type := {
  id : option Z;
  article_id : option Z;
  reddit_post_id : option Z;
  model_name : option string;
  model_version : option string;
  analyzed_at : option Z;
  compound_score : option Q;
  positive_score : option Q;
  negative_score : option Q;
  neutral_score : option Q;
  sentiment_label : option string;
  confidence : option Q;
  financial_sentiment : option Q;
  market_direction : option string;
  text_length : option Z;
  word_count : option Z;
  sentence_count : option Z;
  financial_keywords : option string;
  ticker_mentions : option string;
  processing_time_ms : option Q;
  preprocessing_applied : option string;
  has_financial_context : option bool;
  is_spam_detected : option bool;
  quality_score : option Q
}.

(** [SentimentScore(article_id=..., model_name=sentiment_result["model_name"], ...)]
    as [generate_sample_data] calls it, for an article
    ([reddit_post_id = None]) or for a Reddit post ([article_id = None]). *)
Definition score_row (article_id reddit_post_id : option Z)
    (sentiment_result : Result) (ticker_symbols : string) : SentimentScore :=
  {| id := None;
     article_id := article_id;
     reddit_post_id := reddit_post_id;
     model_name := Some (Sentiment.model_name sentiment_result);
     model_version := None;
     analyzed_at := None;
     compound_score := Some (Sentiment.compound_score (scores sentiment_result));
     positive_score := Some (Sentiment.positive_score (scores sentiment_result));
     negative_score := Some (Sentiment.negative_score (scores sentiment_result));
     neutral_score := Some (Sentiment.neutral_score (scores sentiment_result));
     sentiment_label := Some (Sentiment.sentiment_label (scores sentiment_result));
     confidence := Some (Sentiment.confidence (scores sentiment_result));
     financial_sentiment := None;
     market_direction := None;
     text_length := Some (Sentiment.text_length sentiment_result);
     word_count := Some (Sentiment.word_count sentiment_result);
     sentence_count := None;
     financial_keywords := None;
     ticker_mentions := Some ticker_symbols;
     processing_time_ms := Some (Sentiment.processing_time_ms sentiment_result);
     preprocessing_applied := None;
     has_financial_context := Some true;
     is_spam_detected := None;
     quality_score := None |}.

(** The properties [is_positive], [is_negative] and [is_neutral]:
    [self.sentiment_label == "..."]. *)
Definition is_positive (self : SentimentScore) : bool :=
  bool_decide (sentiment_label self = Some "positive").

Definition is_negative (self : SentimentScore) : bool :=
  bool_decide (sentiment_label self = Some "negative").

Definition is_neutral (self : SentimentScore) : bool :=
  bool_decide (sentiment_label self = Some "neutral").

(** [sentiment_strength]: [abs(self.compound_score)]; [abs(None)] raises
    a [TypeError]. *)
Definition sentiment_strength (self : SentimentScore) : option Q :=
  Qabs <$> compound_score self.

End Models.

Module ModelsFacts.
Import Sentiment SentimentFacts SentimentMore.

Lemma analyze_vader_label_cases (polarity_scores : string → VaderScores Q) text :
  let l := Sentiment.sentiment_label (_analyze_vader polarity_scores text) in
  l = "positive" ∨ l = "negative" ∨ l = "neutral".
Proof.
  unfold _analyze_vader. cbn.
  destruct (Qle_bool _ _); [|destruct (Qle_bool _ _)]; auto.
Qed.

(** A row built from a result of [analyze_text] has exactly one of its
    three flags [is_positive], [is_negative], [is_neutral] set, and a
    sentiment strength that is the absolute value of the compound score of
    the result; for the TextBlob model the strength is the confidence. *)
Theorem score_row_flags
    (polarity_scores : string → VaderScores Q)
    (textblob_sentiment : string → Q * Q) (t0 t1 : Q)
    (text model tickers : string) (article post : option Z) (r : Result) :
  analyze_text polarity_scores textblob_sentiment t0 t1 text model = inr r →
  let row := Models.score_row article post r tickers in
  (Models.is_positive row && negb (Models.is_negative row) && negb (Models.is_neutral row)
   || negb (Models.is_positive row) && Models.is_negative row && negb (Models.is_neutral row)
   || negb (Models.is_positive row) && negb (Models.is_negative row) && Models.is_neutral row)
  = true ∧
  Models.sentiment_strength row = Some (Qabs (Sentiment.compound_score (scores r))) ∧
  (model = "textblob" → Models.sentiment_strength row = Models.confidence row).
Proof.
  unfold analyze_text. intros Hr. cbv zeta.
  assert (Sentiment.sentiment_label (scores r) = "positive" ∨
          Sentiment.sentiment_label (scores r) = "negative" ∨
          Sentiment.sentiment_label (scores r) = "neutral") as Hl.
  { destruct (decide (model = "vader")); [|destruct (decide (model = "textblob"))];
      [injection Hr as <-; simpl..|done].
    - apply analyze_vader_label_cases.
    - apply analyze_textblob_label_buckets. }
  split; [|split].
  - unfold Models.is_positive, Models.is_negative, Models.is_neutral. simpl.
    destruct Hl as [-> | [-> | ->]]; reflexivity.
  - reflexivity.
  - intros ->. simpl in Hr. injection Hr as <-. simpl.
    unfold _analyze_textblob. destruct (textblob_sentiment text) as [p s]. cbn.
    destruct (negb (Qle_bool p 0)); cbn; by destruct (negb (Qle_bool _ 0)).
Qed.

Lemma score_row_flags_witness :
  let polarity := λ _ : string, ((6 # 10)%Q, (1 # 2)%Q) in
  ∃ r, analyze_text no_scores polarity 0 0 "strong sales" "textblob" = inr r ∧
  let row := Models.score_row (Some 1%Z) None r "AAPL" in
  (Models.is_positive row && negb (Models.is_negative row) && negb (Models.is_neutral row)
   || negb (Models.is_positive row) && Models.is_negative row && negb (Models.is_neutral row)
   || negb (Models.is_positive row) && negb (Models.is_negative row) && Models.is_neutral row)
  = true ∧
  Models.sentiment_strength row = Some (Qabs (Sentiment.compound_score (scores r))) ∧
  ("textblob" = "textblob" → Models.sentiment_strength row = Models.confidence row).
Proof.
  eexists. split; [reflexivity|].
  apply (score_row_flags no_scores (λ _, ((6 # 10)%Q, (1 # 2)%Q)) 0 0
           "strong sales" "textblob" "AAPL" (Some 1%Z) None).
  reflexivity.
Defined.

End ModelsFacts.

(** ** [finpulse/scrapers/base_scraper.py]: the text of a page *)

Module Extract.

Definition space : ascii := " "%char.

(** The line boundaries of [str.splitlines]: LF, VT, FF, CR, FS, GS, RS
    (and the pair CR LF, which is one boundary). *)
Definition is_linebreak (c : ascii) : bool :=
  PyStr.in_range 10 13 c || PyStr.in_range 28 30 c.

(** [s.splitlines()]; [cur] is the line being read, in reverse. *)
Fixpoint splitlines_go (cur : list ascii) (s : list ascii) : list (list ascii) :=
  match s with
  | [] => match cur with [] => [] | _ => [reverse cur] end
  | c :: s' =>
      if is_linebreak c
      then reverse cur ::
           match s' with
           | d :: s'' =>
               if (PyStr.ord c =? 13)%N && (PyStr.ord d =? 10)%N
               then splitlines_go [] s''
               else splitlines_go [] s'
           | [] => splitlines_go [] s'
           end
      else splitlines_go (c :: cur) s'
  end.

Definition splitlines (s : list ascii) : list (list ascii) := splitlines_go [] s.

Fixpoint lstrip (s : list ascii) : list ascii :=
  match s with
  | c :: s' => if PyStr.is_space c then lstrip s' else s
  | [] => []
  end.

(** [s.strip()]. *)
Definition strip (s : list ascii) : list ascii :=
  reverse (lstrip (reverse (lstrip s))).

(** [s.split("  ")]: the pieces between the occurrences of two spaces,
    found from the left; [cur] is the piece being read, in reverse. *)
Fixpoint split_spaces_go (cur : list ascii) (s : list ascii) : list (list ascii) :=
  match s with
  | [] => [reverse cur]
  | c :: s' =>
      match s' with
      | d :: s'' =>
          if Ascii.eqb c space && Ascii.eqb d space
          then reverse cur :: split_spaces_go [] s''
          else split_spaces_go (c :: cur) s'
      | [] => split_spaces_go (c :: cur) s'
      end
  end.

Definition split_spaces (s : list ascii) : list (list ascii) := split_spaces_go [] s.

(** [' '.join(l)]. *)
Fixpoint join (l : list (list ascii)) : list ascii :=
  match l with
  | [] => []
  | [x] => x
  | x :: l' => x ++ space :: join l'
  end.

(** The lines of the clean-up: every line is stripped and cut at double
    spaces, every piece is stripped, and the pieces that are not empty
    are joined by single spaces. *)
Definition chunks (text : list ascii) : list (list ascii) :=
  line ← strip <$> splitlines text;
  strip <$> split_spaces line.

Definition clean (text : list ascii) : list ascii :=
  join (filter (λ chunk, chunk ≠ []) (chunks text)).

(** [_extract_text_content]; [get_text] stands for what BeautifulSoup
    does with the page: parsing it, dropping the script, style, nav,
    footer and aside elements, and [soup.get_text()]. *)
Definition _extract_text_content (get_text : string → string) (html : string) : string :=
  let text := get_text html in
  string_of_list_ascii (clean (list_ascii_of_string text)).

End Extract.

(** ** The text of a page: what the clean-up keeps and what it leaves *)

Module ExtractFacts.
Import Extract.

(** The characters of a text that are not whitespace, in order. *)
Definition content (s : list ascii) : list ascii :=
  filter (λ c, PyStr.is_space c = false) s.

Lemma is_linebreak_space c : is_linebreak c = true → PyStr.is_space c = true.
Proof. destruct c as [[] [] [] [] [] [] [] []]; by vm_compute. Qed.

Lemma content_app s1 s2 : content (s1 ++ s2) = content s1 ++ content s2.
Proof. apply filter_app. Qed.

Lemma content_reverse s : content (reverse s) = reverse (content s).
Proof. apply filter_reverse. Qed.

Lemma content_space c s : PyStr.is_space c = true → content (c :: s) = content s.
Proof. intros Hc. unfold content. rewrite filter_cons_False; [done|congruence]. Qed.

Lemma content_lstrip s : content (lstrip s) = content s.
Proof.
  induction s as [|c s IH]; simpl; [done|].
  destruct (PyStr.is_space c) eqn:Hc; [|done]. by rewrite content_space.
Qed.

Lemma content_strip s : content (strip s) = content s.
Proof.
  unfold strip.
  by rewrite content_reverse, content_lstrip, content_reverse, reverse_involutive,
    content_lstrip.
Qed.

Definition contents (l : list (list ascii)) : list ascii := concat (content <$> l).

Lemma contents_splitlines_go n cur s :
  length s ≤ n →
  contents (splitlines_go cur s) = content (reverse cur ++ s).
Proof.
  revert cur s. induction n as [|n IH]; intros cur [|c s] Hn; simpl in Hn; try lia.
  - simpl. rewrite app_nil_r. destruct cur; [done|].
    unfold contents. simpl. by rewrite app_nil_r.
  - simpl. rewrite app_nil_r. destruct cur; [done|].
    unfold contents. simpl. by rewrite app_nil_r.
  - cbn [splitlines_go]. destruct (is_linebreak c) eqn:Hc.
    + apply is_linebreak_space in Hc.
      rewrite content_app, (content_space c) by done.
      unfold contents. rewrite fmap_cons. cbn [concat]. f_equal.
      destruct s as [|d s]; [done|].
      destruct ((PyStr.ord c =? 13)%N && (PyStr.ord d =? 10)%N) eqn:Hcr.
      * assert (PyStr.is_space d = true) as Hd.
        { apply andb_true_iff in Hcr as [_ Hd]. apply N.eqb_eq in Hd.
          unfold PyStr.is_space, PyStr.in_range. rewrite Hd. done. }
        rewrite (content_space d) by done.
        fold (contents (splitlines_go [] s)). rewrite IH by (simpl in *; lia). done.
      * fold (contents (splitlines_go [] (d :: s))). rewrite IH by (simpl in *; lia). done.
    + rewrite IH by lia. rewrite reverse_cons, <- (assoc_L (++)). done.
Qed.

Lemma contents_split_spaces_go n cur s :
  length s ≤ n →
  contents (split_spaces_go cur s) = content (reverse cur ++ s).
Proof.
  revert cur s. induction n as [|n IH]; intros cur [|c s] Hn; simpl in Hn; try lia.
  - unfold contents. simpl. by rewrite !app_nil_r.
  - unfold contents. simpl. by rewrite !app_nil_r.
  - cbn [split_spaces_go]. destruct s as [|d s].
    + rewrite IH by (simpl; lia). by rewrite reverse_cons, <- (assoc_L (++)).
    + destruct (Ascii.eqb c space && Ascii.eqb d space) eqn:Hsp.
      * apply andb_true_iff in Hsp as [->%Ascii.eqb_eq ->%Ascii.eqb_eq].
        unfold contents. rewrite fmap_cons. cbn [concat].
        fold (contents (split_spaces_go [] s)). rewrite IH by (simpl in *; lia).
        rewrite (content_app (reverse cur)), !(content_space space) by done.
        done.
      * rewrite IH by (simpl in *; lia).
        by rewrite reverse_cons, <- (assoc_L (++)).
Qed.

Lemma content_join l : content (join l) = contents l.
Proof.
  unfold contents. induction l as [|x [|y l] IH]; [done|simpl; by rewrite app_nil_r|].
  change (join (x :: y :: l)) with (x ++ space :: join (y :: l)).
  rewrite content_app, (content_space space) by done. rewrite IH. done.
Qed.

Lemma contents_nonempty l :
  contents (filter (λ chunk, chunk ≠ []) l) = contents l.
Proof.
  unfold contents. induction l as [|x l IH]; [done|].
  rewrite filter_cons. destruct (decide (x ≠ [])) as [|Hx].
  - rewrite !fmap_cons. cbn [concat]. by rewrite IH.
  - destruct x; [|by destruct Hx]. by rewrite IH.
Qed.

Lemma contents_chunks text : contents (chunks text) = content text.
Proof.
  unfold chunks, splitlines.
  pose proof (contents_splitlines_go (length text) [] text (reflexivity _)) as Hl.
  simpl in Hl. rewrite <- Hl. clear Hl.
  induction (splitlines_go [] text) as [|line lines IH]; [done|].
  rewrite fmap_cons. cbn [mbind list_bind]. unfold contents in *.
  rewrite fmap_app, concat_app, IH. cbn [fmap list_fmap concat]. f_equal.
  rewrite <- list_fmap_compose.
  rewrite (list_fmap_ext _ content (split_spaces_go [] (strip line)))
    by (intros; simpl; apply content_strip).
  fold (contents (split_spaces_go [] (strip line))).
  rewrite (contents_split_spaces_go (length (strip line))) by done.
  simpl. apply content_strip.
Qed.

(** The clean-up touches whitespace only: the characters of the result
    that are not whitespace are those of the text, in the same order. *)
Theorem extract_text_content_keeps_content (get_text : string → string) (html : string) :
  content (list_ascii_of_string (_extract_text_content get_text html))
  = content (list_ascii_of_string (get_text html)).
Proof.
  unfold _extract_text_content, clean.
  rewrite list_ascii_of_string_of_list_ascii.
  by rewrite content_join, contents_nonempty, contents_chunks.
Qed.

(** *** The shape of the result *)

Fixpoint no_double_space (s : list ascii) : Prop :=
  match s with
  | [] => True
  | c :: s' =>
      match s' with
      | d :: _ => ¬ (c = space ∧ d = space)
      | [] => True
      end ∧ no_double_space s'
  end.

Definition not_space_at (c : option ascii) : Prop :=
  match c with Some c => PyStr.is_space c = false | None => True end.

(** No whitespace at either end. *)
Definition trimmed (s : list ascii) : Prop :=
  not_space_at (head s) ∧ not_space_at (last s).

Definition no_linebreak (s : list ascii) : Prop :=
  Forall (λ c, is_linebreak c = false) s.

(** One line, no whitespace at its ends, no two spaces in a row. *)
Definition tidy (s : list ascii) : Prop :=
  no_linebreak s ∧ trimmed s ∧ no_double_space s.

Lemma no_double_space_app a b :
  no_double_space (a ++ b) ↔
  no_double_space a ∧ no_double_space b ∧
  ¬ (last a = Some space ∧ head b = Some space).
Proof.
  induction a as [|c a IH].
  - simpl. split; [|tauto]. intros Hb.
    split; [done|]. split; [done|]. by intros [[=] _].
  - destruct a as [|d a].
    + clear IH. destruct b as [|e b]; simpl.
      * split; [|tauto]. intros _.
        split; [done|]. split; [done|]. by intros [_ [=]].
      * split.
        -- intros [Hce Hb]. split; [done|]. split; [done|].
           intros [[= ->] [= ->]]. tauto.
        -- intros (_ & Hb & Hce). split; [|done]. intros [-> ->]. tauto.
    + change ((c :: d :: a) ++ b) with (c :: (d :: a) ++ b).
      change (no_double_space (c :: (d :: a) ++ b))
        with (¬ (c = space ∧ d = space) ∧ no_double_space ((d :: a) ++ b)).
      change (no_double_space (c :: d :: a))
        with (¬ (c = space ∧ d = space) ∧ no_double_space (d :: a)).
      rewrite IH, last_cons_cons. tauto.
Qed.

Lemma lstrip_split s :
  ∃ w, s = w ++ lstrip s ∧ Forall (λ c, PyStr.is_space c = true) w.
Proof.
  induction s as [|c s (w & Hs & Hw)]; [by exists []|]. simpl.
  destruct (PyStr.is_space c) eqn:Hc; [|by exists []].
  exists (c :: w). split; [simpl; congruence|by constructor].
Qed.

Lemma lstrip_head s : not_space_at (head (lstrip s)).
Proof.
  induction s as [|c s IH]; simpl; [done|].
  by destruct (PyStr.is_space c) eqn:Hc.
Qed.

Lemma lstrip_id s : not_space_at (head s) → lstrip s = s.
Proof. destruct s as [|c s]; simpl; [done|]. by intros ->. Qed.

Lemma strip_split s : ∃ a b, s = a ++ strip s ++ b.
Proof.
  unfold strip. destruct (lstrip_split s) as (a & Hs & _).
  destruct (lstrip_split (reverse (lstrip s))) as (b & Hr & _).
  exists a, (reverse b). rewrite <- reverse_app, <- Hr, reverse_involutive. done.
Qed.

Lemma strip_trimmed s : trimmed (strip s).
Proof.
  unfold strip, trimmed. rewrite head_reverse, last_reverse.
  split; [|apply lstrip_head].
  pose proof (lstrip_head s) as Hs. rewrite <- last_reverse in Hs.
  set (t := reverse (lstrip s)) in *.
  destruct (lstrip_split t) as (w & Hr & _).
  destruct (lstrip t) as [|c u] eqn:Hu; [done|].
  rewrite Hr, last_app in Hs. by destruct (last (c :: u)).
Qed.

Lemma strip_id s : trimmed s → strip s = s.
Proof.
  intros [Hh Hl]. unfold strip. rewrite (lstrip_id s) by done.
  rewrite lstrip_id by by rewrite head_reverse. apply reverse_involutive.
Qed.

Lemma strip_Forall (P : ascii → Prop) s : Forall P s → Forall P (strip s).
Proof.
  destruct (strip_split s) as (a & b & Hs). rewrite Hs at 1.
  by intros [_ [? _]%Forall_app]%Forall_app.
Qed.

Lemma strip_no_double_space s : no_double_space s → no_double_space (strip s).
Proof.
  destruct (strip_split s) as (a & b & Hs). rewrite Hs at 1.
  by intros (_ & (? & _)%no_double_space_app & _)%no_double_space_app.
Qed.

Lemma splitlines_go_no_linebreak n cur s :
  length s ≤ n → no_linebreak cur →
  Forall no_linebreak (splitlines_go cur s).
Proof.
  unfold no_linebreak.
  revert cur s. induction n as [|n IH]; intros cur [|c s] Hn Hcur; simpl in Hn; try lia.
  - simpl. destruct cur; repeat constructor. by apply Forall_reverse.
  - simpl. destruct cur; repeat constructor. by apply Forall_reverse.
  - cbn [splitlines_go]. destruct (is_linebreak c) eqn:Hc.
    + constructor; [by apply Forall_reverse|].
      destruct s as [|d s]; [by constructor|].
      destruct (_ && _); apply IH; simpl in *; try lia; by constructor.
    + apply IH; [lia|]. by constructor.
Qed.

Lemma split_spaces_go_Forall (P : ascii → Prop) n cur s :
  length s ≤ n → Forall P cur → Forall P s →
  Forall (Forall P) (split_spaces_go cur s).
Proof.
  revert cur s. induction n as [|n IH]; intros cur [|c s] Hn Hcur Hs; simpl in Hn; try lia.
  - repeat constructor. by apply Forall_reverse.
  - repeat constructor. by apply Forall_reverse.
  - cbn [split_spaces_go]. apply Forall_cons in Hs as [Hc Hs]. destruct s as [|d s].
    + apply IH; [simpl; lia|by constructor|done].
    + destruct (_ && _).
      * constructor; [by apply Forall_reverse|].
        apply Forall_cons in Hs as [_ Hs]. apply IH; [simpl in *; lia|done..].
      * apply IH; [simpl in *; lia|by constructor|done].
Qed.

Lemma split_spaces_go_no_double_space n cur s :
  length s ≤ n → no_double_space (reverse cur) →
  ¬ (head cur = Some space ∧ head s = Some space) →
  Forall no_double_space (split_spaces_go cur s).
Proof.
  revert cur s. induction n as [|n IH]; intros cur [|c s] Hn Hcur Hb; simpl in Hn; try lia.
  - by repeat constructor.
  - by repeat constructor.
  - assert (no_double_space (reverse (c :: cur))) as Hcur'.
    { rewrite reverse_cons. apply no_double_space_app.
      rewrite last_reverse. simpl. by repeat split. }
    cbn [split_spaces_go]. destruct s as [|d s].
    + apply IH; [simpl; lia|done|]. by intros [_ [=]].
    + destruct (Ascii.eqb c space && Ascii.eqb d space) eqn:Hsp.
      * constructor; [done|]. apply IH; [simpl in *; lia|done|]. by intros [[=] _].
      * apply IH; [simpl in *; lia|done|]. simpl. intros [[= ->] [= ->]].
        by rewrite Ascii.eqb_refl in Hsp.
Qed.

(** What every chunk that is kept looks like. *)
Definition good_chunk (x : list ascii) : Prop := x ≠ [] ∧ tidy x.

Lemma chunks_good text :
  Forall good_chunk (filter (λ chunk, chunk ≠ []) (chunks text)).
Proof.
  apply Forall_forall. intros x [Hne Hx]%list_elem_of_filter. split; [done|].
  unfold chunks in Hx.
  apply list_elem_of_bind in Hx as (line & Hx & Hline).
  apply list_elem_of_fmap in Hx as (piece & -> & Hpiece).
  apply list_elem_of_fmap in Hline as (line0 & -> & Hline).
  pose proof (splitlines_go_no_linebreak (length text) [] text (reflexivity _)
                ltac:(constructor)) as Hlines.
  eapply Forall_forall in Hlines; [|exact Hline].
  pose proof (split_spaces_go_Forall (λ c, is_linebreak c = false)
                (length (strip line0)) [] (strip line0) (reflexivity _)
                ltac:(constructor) (strip_Forall _ _ Hlines)) as Hnl.
  eapply Forall_forall in Hnl; [|exact Hpiece].
  pose proof (split_spaces_go_no_double_space (length (strip line0)) []
                (strip line0) (reflexivity _) I ltac:(by intros [[=] _])) as Hnd.
  eapply Forall_forall in Hnd; [|exact Hpiece].
  split; [by apply strip_Forall|].
  split; [apply strip_trimmed|by apply strip_no_double_space].
Qed.

Lemma good_chunk_ends x :
  good_chunk x →
  ∃ c d, head x = Some c ∧ last x = Some d ∧
         PyStr.is_space c = false ∧ PyStr.is_space d = false.
Proof.
  intros [Hne (_ & [Hh Hl] & _)].
  destruct (head x) as [c|] eqn:Hc; [|by apply head_None in Hc].
  destruct (last x) as [d|] eqn:Hd; [|by apply last_None in Hd].
  by exists c, d.
Qed.

Lemma join_good l :
  Forall good_chunk l → tidy (join l) ∧ (l ≠ [] → good_chunk (join l)).
Proof.
  induction 1 as [|x l Hx Hl [IHt IHg]].
  { split; [|done]. repeat split; by constructor. }
  destruct l as [|y l]; [by destruct Hx|].
  change (join (x :: y :: l)) with (x ++ space :: join (y :: l)).
  destruct IHg as [Hne (Hnl & [Hh Hlast] & Hnd)]; [done|].
  destruct (good_chunk_ends x Hx) as (c & d & Hc & Hd & Hcs & Hds).
  destruct Hx as [Hxne (Hxnl & _ & Hxnd)].
  set (j := join (y :: l)) in *. clearbody j.
  assert (tidy (x ++ space :: j)) as Ht.
  { split; [|split; [split|]].
    - apply Forall_app. split; [done|]. by constructor.
    - rewrite head_app, Hc. done.
    - rewrite last_app, last_cons.
      destruct (last j) eqn:Hj; [done|by apply last_None in Hj].
    - apply no_double_space_app. split; [done|]. split.
      + destruct j as [|e j]; [done|]. split; [|done].
        simpl in Hh. intros [_ ->]. done.
      + rewrite Hd. intros [[= ->] _]. done. }
  split; [done|]. intros _. split; [by destruct x|done].
Qed.

(** The result of the clean-up is one line, with no whitespace at its
    ends and no two spaces in a row. *)
Theorem extract_text_content_tidy (get_text : string → string) (html : string) :
  tidy (list_ascii_of_string (_extract_text_content get_text html)).
Proof.
  unfold _extract_text_content, clean.
  rewrite list_ascii_of_string_of_list_ascii.
  apply (proj1 (join_good _ (chunks_good _))).
Qed.

(** *** Cleaning twice *)

Lemma splitlines_go_one cur s :
  no_linebreak s →
  splitlines_go cur s = match reverse cur ++ s with [] => [] | l => [l] end.
Proof.
  intros Hs. revert cur. induction Hs as [|c s Hc Hs IH]; intros cur.
  - simpl. rewrite app_nil_r. destruct cur as [|d cur]; [done|].
    destruct (reverse (d :: cur)) eqn:Hr; [|done].
    by apply (f_equal length) in Hr; rewrite length_reverse in Hr.
  - cbn [splitlines_go]. rewrite Hc, IH, reverse_cons, <- (assoc_L (++)). done.
Qed.

Lemma split_spaces_go_one cur s :
  no_double_space s → split_spaces_go cur s = [reverse cur ++ s].
Proof.
  revert cur. induction s as [|c s IH]; intros cur Hs.
  - simpl. by rewrite app_nil_r.
  - cbn [split_spaces_go]. destruct s as [|d s].
    + rewrite IH by done. by rewrite reverse_cons, app_nil_r.
    + destruct Hs as [Hcd Hs].
      destruct (Ascii.eqb c space && Ascii.eqb d space) eqn:Hsp.
      * apply andb_true_iff in Hsp as [?%Ascii.eqb_eq ?%Ascii.eqb_eq]. tauto.
      * rewrite IH by done. by rewrite reverse_cons, <- (assoc_L (++)).
Qed.

Lemma clean_tidy s : tidy s → clean s = s.
Proof.
  intros (Hnl & Htr & Hnd). destruct s as [|c s]; [done|].
  unfold clean, chunks, splitlines. rewrite splitlines_go_one by done.
  cbn [reverse rev_append app fmap list_fmap mbind list_bind].
  rewrite strip_id by done. unfold split_spaces.
  rewrite split_spaces_go_one by done.
  cbn [reverse rev_append app fmap list_fmap].
  rewrite strip_id by done.
  rewrite filter_cons_True by done. done.
Qed.

(** Cleaning the result again changes nothing. *)
Theorem extract_text_content_idempotent (get_text : string → string) (html : string) :
  _extract_text_content (λ text, text) (_extract_text_content get_text html)
  = _extract_text_content get_text html.
Proof.
  unfold _extract_text_content at 1. cbv beta zeta.
  rewrite clean_tidy by apply extract_text_content_tidy.
  apply string_of_list_ascii_of_string.
Qed.

Lemma content_blank s :
  Forall (λ c, PyStr.is_space c = true) s → content s = [].
Proof. induction 1 as [|c s Hc _ IH]; [done|]. by rewrite content_space. Qed.

(** A page whose text is whitespace only gives the empty string. *)
Theorem extract_text_content_blank (get_text : string → string) (html : string) :
  Forall (λ c, PyStr.is_space c = true) (list_ascii_of_string (get_text html)) →
  _extract_text_content get_text html = "".
Proof.
  intros Hblank.
  pose proof (extract_text_content_keeps_content get_text html) as Hc.
  pose proof (extract_text_content_tidy get_text html) as (_ & [Hh _] & _).
  rewrite (content_blank _ Hblank) in Hc.
  rewrite <- (string_of_list_ascii_of_string (_extract_text_content get_text html)).
  destruct (list_ascii_of_string (_extract_text_content get_text html)) as [|c s];
    [done|].
  simpl in Hh. unfold content in Hc. by rewrite filter_cons_True in Hc.
Qed.

Lemma extract_text_content_blank_witness :
  _extract_text_content (λ html, "   ") "<script>x</script>" = "".
Proof.
  apply (extract_text_content_blank (λ html, "   ") "<script>x</script>").
  repeat constructor.
Defined.

End ExtractFacts.
